(** * AIMSsist shared request/response queue (dsa3.py)

    A shallow embedding of [QueueManager], the snapshot store
    ([to_dict] / [from_dict] / [save_queue] / [load_queue]) and the keyword
    resolver [AIMSKnowledgeBase], followed by the properties the
    specification states about them and by further properties of the code
    (queue positions, request ids, retrieval, sweeps, health, categories,
    persisted submissions).

    Modelling conventions.
    - Python [int] is [Z]; [len] is [Z.of_nat (length _)].
    - A [datetime] is the number of microseconds it denotes ([Z]); a
      [timedelta.total_seconds()] and a [time.time()] reading are exact
      rationals ([Q]): floating-point rounding is outside the model.
    - Every call of [datetime.now()] or [time.time()] is an explicit
      argument of the operation that makes it, in call order.
    - [datetime.fromisoformat], [datetime.isoformat], [strftime] and
      [str.lower] are library functions: they are the fields of the
      classes [DateTimeLib] and [StrLib].  [fromisoformat s = None] stands
      for the call raising; [fromisoformat s = Some t] gives the wall-clock
      reading [t] of the parsed [datetime], and [offset_aware s] tells
      whether that [datetime] carries a UTC offset.  [datetime.now()] is
      naive, so subtracting an offset-aware [datetime] from it raises
      [TypeError]; what [isoformat] writes for a naive time is naive.
    - An [int] converted to a float is taken to be in the range of floats.
    - A truth test of Python is modelled as such: [None], [0.0] and the
      empty list are false.
    - The dictionaries of the JSON snapshot are records; [active_users]
      is a finite map from user id to timestamp string.
    - A Python exception that escapes an operation is an explicit
      outcome, together with the state the mutation left behind. *)

From Stdlib Require Import ZArith QArith Lqa Ascii Sorted.
From stdpp Require Import gmap strings list fin_maps pretty sorting.

Local Open Scope Z_scope.

(** ** Library interfaces *)

Class DateTimeLib := {
  fromisoformat : string → option Z;
  offset_aware : string → bool;
  isoformat : Z → string;
  strftime_HMS : Z → string;
  isoformat_naive : ∀ t, offset_aware (isoformat t) = false
}.

Class StrLib := {
  str_lower : string → string
}.

(** ** Data model *)

(** The [msg_obj] dictionary of [add_user_message]. *)
Record Message := {
  msg_id : Z;
  msg_message : string;
  msg_timestamp : string;
  msg_user_id : string
}.

(** The [response] dictionary of [process_next_message]. *)
Record Response := {
  resp_id : Z;
  resp_response : string;
  resp_original_message : string;
  resp_user_id : string;
  resp_timestamp : string
}.

(** An entry of [conversation_history]. *)
Record Exchange := {
  ex_user : string;
  ex_bot : string;
  ex_time : string;
  ex_user_id : string
}.

(** An entry of [queue_log]. *)
Record LogEntry := {
  log_time : string;
  log_action : string;
  log_queue_size : Z
}.

Record QueueManager := {
  message_queue : list Message;
  processing_queue : list Message;
  response_queue : list Response;
  conversation_history : list Exchange;
  active_users : gmap string string;
  start_time : string;
  queue_log : list LogEntry;
  last_process_time : option Q;
  total_messages : Z;
  processed_count : Z
}.

(** Field assignments [self.f = v]. *)
Definition set_message_queue (v : list Message) (qm : QueueManager) : QueueManager :=
  {| message_queue := v;
     processing_queue := processing_queue qm;
     response_queue := response_queue qm;
     conversation_history := conversation_history qm;
     active_users := active_users qm;
     start_time := start_time qm;
     queue_log := queue_log qm;
     last_process_time := last_process_time qm;
     total_messages := total_messages qm;
     processed_count := processed_count qm |}.

Definition set_processing_queue (v : list Message) (qm : QueueManager) : QueueManager :=
  {| message_queue := message_queue qm;
     processing_queue := v;
     response_queue := response_queue qm;
     conversation_history := conversation_history qm;
     active_users := active_users qm;
     start_time := start_time qm;
     queue_log := queue_log qm;
     last_process_time := last_process_time qm;
     total_messages := total_messages qm;
     processed_count := processed_count qm |}.

Definition set_response_queue (v : list Response) (qm : QueueManager) : QueueManager :=
  {| message_queue := message_queue qm;
     processing_queue := processing_queue qm;
     response_queue := v;
     conversation_history := conversation_history qm;
     active_users := active_users qm;
     start_time := start_time qm;
     queue_log := queue_log qm;
     last_process_time := last_process_time qm;
     total_messages := total_messages qm;
     processed_count := processed_count qm |}.

Definition set_conversation_history (v : list Exchange) (qm : QueueManager) : QueueManager :=
  {| message_queue := message_queue qm;
     processing_queue := processing_queue qm;
     response_queue := response_queue qm;
     conversation_history := v;
     active_users := active_users qm;
     start_time := start_time qm;
     queue_log := queue_log qm;
     last_process_time := last_process_time qm;
     total_messages := total_messages qm;
     processed_count := processed_count qm |}.

Definition set_active_users (v : gmap string string) (qm : QueueManager) : QueueManager :=
  {| message_queue := message_queue qm;
     processing_queue := processing_queue qm;
     response_queue := response_queue qm;
     conversation_history := conversation_history qm;
     active_users := v;
     start_time := start_time qm;
     queue_log := queue_log qm;
     last_process_time := last_process_time qm;
     total_messages := total_messages qm;
     processed_count := processed_count qm |}.

Definition set_queue_log (v : list LogEntry) (qm : QueueManager) : QueueManager :=
  {| message_queue := message_queue qm;
     processing_queue := processing_queue qm;
     response_queue := response_queue qm;
     conversation_history := conversation_history qm;
     active_users := active_users qm;
     start_time := start_time qm;
     queue_log := v;
     last_process_time := last_process_time qm;
     total_messages := total_messages qm;
     processed_count := processed_count qm |}.

Definition set_last_process_time (v : option Q) (qm : QueueManager) : QueueManager :=
  {| message_queue := message_queue qm;
     processing_queue := processing_queue qm;
     response_queue := response_queue qm;
     conversation_history := conversation_history qm;
     active_users := active_users qm;
     start_time := start_time qm;
     queue_log := queue_log qm;
     last_process_time := v;
     total_messages := total_messages qm;
     processed_count := processed_count qm |}.

Definition set_total_messages (v : Z) (qm : QueueManager) : QueueManager :=
  {| message_queue := message_queue qm;
     processing_queue := processing_queue qm;
     response_queue := response_queue qm;
     conversation_history := conversation_history qm;
     active_users := active_users qm;
     start_time := start_time qm;
     queue_log := queue_log qm;
     last_process_time := last_process_time qm;
     total_messages := v;
     processed_count := processed_count qm |}.

Definition set_processed_count (v : Z) (qm : QueueManager) : QueueManager :=
  {| message_queue := message_queue qm;
     processing_queue := processing_queue qm;
     response_queue := response_queue qm;
     conversation_history := conversation_history qm;
     active_users := active_users qm;
     start_time := start_time qm;
     queue_log := queue_log qm;
     last_process_time := last_process_time qm;
     total_messages := total_messages qm;
     processed_count := v |}.

(** ** Numbers and slices *)

(** [a < b] on floats, as a test. *)
Definition Qltb (a b : Q) : bool := negb (Qle_bool b a).

(** Truth value of a float: [0.0] is false. *)
Definition float_truthy (x : Q) : bool := negb (Qeq_bool x 0).

(** [timedelta.total_seconds()] of a difference of microsecond counts. *)
Definition total_seconds (micros : Z) : Q := Qmake micros 1000000.

(** [int(x)] on a float: truncation towards zero. *)
Definition int_of_float (x : Q) : Z := Z.quot (Qnum x) (Zpos (Qden x)).

(** The slice [l[-n:]] for a positive [n]: the last [n] elements, the whole
    list when it is shorter. *)
Definition last_n {A} (n : nat) (l : list A) : list A :=
  drop (length l - n)%nat l.

(** ** The keyword resolver: [AIMSKnowledgeBase] *)

Record Procedure := {
  keywords : list string;
  category : string;
  response : string
}.

Record AIMSKnowledgeBase := {
  procedures : list Procedure;
  get_default_help : string
}.

(** [k] is an initial segment of [s]. *)
Fixpoint str_prefix (k s : string) : bool :=
  match k, s with
  | EmptyString, _ => true
  | String _ _, EmptyString => false
  | String a k', String b s' => if Ascii.eqb a b then str_prefix k' s' else false
  end.

(** The substring test [k in s]. *)
Fixpoint str_in (k s : string) : bool :=
  str_prefix k s ||
  match s with
  | EmptyString => false
  | String _ s' => str_in k s'
  end.

(** [any(keyword in user_msg_lower for keyword in procedure['keywords'])] *)
Definition any_keyword_in (p : Procedure) (user_msg_lower : string) : bool :=
  existsb (λ keyword, str_in keyword user_msg_lower) (keywords p).

(** The [for procedure in self.procedures] loop. *)
Fixpoint search_loop (procs : list Procedure) (user_msg_lower : string)
  : option Procedure :=
  match procs with
  | [] => None
  | procedure :: rest =>
      if any_keyword_in procedure user_msg_lower then Some procedure
      else search_loop rest user_msg_lower
  end.

Definition search_procedure `{StrLib} (kb : AIMSKnowledgeBase) (user_message : string)
  : option Procedure :=
  search_loop (procedures kb) (str_lower user_message).

(** The procedure table of [AIMSKnowledgeBase.__init__], in source order.
    The canned answer bodies do not take part in the matching: [body] gives
    the answer text of a category. *)
Definition AIMS_procedures (body : string → string) : list Procedure :=
  [ {| keywords := ["enroll"; "enrollment"; "register"; "enlist"; "add subject"];
       category := "Enrollment";
       response := body "Enrollment" |};
    {| keywords := ["pay tuition"; "tuition fee"; "how to pay"; "miscellaneous fee";
                    "make payment"; "payment process"; "assessment fee"];
       category := "Fee Payment";
       response := body "Fee Payment" |};
    {| keywords := ["grades"; "grade"; "gwa"; "marks"; "scores"; "results"];
       category := "Grades";
       response := body "Grades" |};
    {| keywords := ["other payments"; "other fees"];
       category := "Other Payments";
       response := body "Other Payments" |};
    {| keywords := ["schedule"; "class"; "timetable"; "time"; "room"];
       category := "Schedule";
       response := body "Schedule" |};
    {| keywords := ["registration form"; "download registration";
                    "get registration form"; "cor"; "print form"; "enrollment form"];
       category := "Registration Form";
       response := body "Registration Form" |};
    {| keywords := ["statement of account"; "soa"; "payment history";
                    "account history"; "check balance"; "view balance"; "fees paid";
                    "payment records"];
       category := "Account History";
       response := body "Account History" |};
    {| keywords := ["password"; "change password"; "update password";
                    "reset password"; "account security"];
       category := "Password";
       response := body "Password" |} ].

Definition AIMS (body : string → string) (default_help : string) : AIMSKnowledgeBase :=
  {| procedures := AIMS_procedures body; get_default_help := default_help |}.

(** ** [QueueManager] *)

(** [QueueManager.__init__]; [now] is the reading of [datetime.now()]. *)
Definition new_QueueManager `{DateTimeLib} (now : Z) : QueueManager :=
  {| message_queue := [];
     processing_queue := [];
     response_queue := [];
     conversation_history := [];
     active_users := ∅;
     start_time := isoformat now;
     queue_log := [];
     last_process_time := None;
     total_messages := 0;
     processed_count := 0 |}.

Definition enqueue (msg_obj : Message) (qm : QueueManager) : QueueManager :=
  set_message_queue (message_queue qm ++ [msg_obj]) qm.

Definition dequeue (qm : QueueManager) : QueueManager * option Message :=
  match message_queue qm with
  | [] => (qm, None)
  | msg :: rest => (set_message_queue rest qm, Some msg)
  end.

(** [add_user_message]; [t_msg], [t_active] and [t_log] are its three
    readings of [datetime.now()]. *)
Definition add_user_message `{DateTimeLib} (t_msg t_active t_log : Z)
    (message user_id : string) (qm : QueueManager) : QueueManager :=
  let msg_obj :=
    {| msg_id := total_messages qm + 1;
       msg_message := message;
       msg_timestamp := isoformat t_msg;
       msg_user_id := user_id |} in
  let qm1 := enqueue msg_obj qm in
  let qm2 := set_total_messages (total_messages qm1 + 1) qm1 in
  let qm3 := set_active_users (<[user_id := isoformat t_active]> (active_users qm2)) qm2 in
  set_queue_log
    (queue_log qm3 ++
       [ {| log_time := isoformat t_log;
            log_action := "enqueued";
            log_queue_size := Z.of_nat (length (message_queue qm3)) |} ])
    qm3.

(** The guard [self.last_process_time and (current_time -
    self.last_process_time) < 3.0]: [None] and [0.0] are both false. *)
Definition rate_limited (current_time : Q) (qm : QueueManager) : bool :=
  match last_process_time qm with
  | None => false
  | Some last => float_truthy last && Qltb (current_time - last) 3
  end.

(** [self.processing_queue.pop(0)] under [if self.processing_queue]. *)
Definition pop_processing (qm : QueueManager) : QueueManager :=
  match processing_queue qm with
  | [] => qm
  | _ :: rest => set_processing_queue rest qm
  end.

(** [process_next_message]; [current_time] is the reading of [time.time()],
    [now] the reading of [datetime.now()] for the response timestamp. *)
Definition process_next_message `{DateTimeLib} `{StrLib} (knowledge_base : AIMSKnowledgeBase)
    (current_time : Q) (now : Z) (qm : QueueManager) : QueueManager * bool :=
  if rate_limited current_time qm then (qm, false)
  else
    match dequeue qm with
    | (qm1, Some msg) =>
        let qm2 := set_processing_queue (processing_queue qm1 ++ [msg]) qm1 in
        let qm3 := set_last_process_time (Some current_time) qm2 in
        let response_text :=
          match search_procedure knowledge_base (msg_message msg) with
          | Some procedure => response procedure
          | None => get_default_help knowledge_base
          end in
        let response :=
          {| resp_id := msg_id msg;
             resp_response := response_text;
             resp_original_message := msg_message msg;
             resp_user_id := msg_user_id msg;
             resp_timestamp := isoformat now |} in
        let qm4 := set_response_queue (response_queue qm3 ++ [response]) qm3 in
        let qm5 := pop_processing qm4 in
        (set_processed_count (processed_count qm5 + 1) qm5, true)
    | (qm1, None) => (qm1, false)
    end.

(** The [enumerate] loop of [get_queue_position]. *)
Fixpoint position_loop (user_id : string) (idx : Z) (l : list Message) : Z :=
  match l with
  | [] => 0
  | msg :: rest =>
      if String.eqb (msg_user_id msg) user_id then idx + 1
      else position_loop user_id (idx + 1) rest
  end.

Definition get_queue_position (user_id : string) (qm : QueueManager) : Z :=
  position_loop user_id 0 (message_queue qm).

(** The body of the [try] in [clean_inactive_users]: is the user whose last
    activity is [last_active] put on the [inactive_users] list?  The bare
    [except] lists the user when [fromisoformat] raises and when the
    subtraction from the naive [current_time] raises, which it does for an
    offset-aware timestamp. *)
Definition is_inactive `{DateTimeLib} (timeout_seconds : Q) (current_time : Z)
    (last_active : string) : bool :=
  match fromisoformat last_active with
  | Some last_active_time =>
      if offset_aware last_active then true
      else Qltb timeout_seconds (total_seconds (current_time - last_active_time))
  | None => true
  end.

(** The list [inactive_users] built by the first loop. *)
Definition inactive_users `{DateTimeLib} (timeout_seconds : Q) (current_time : Z)
    (qm : QueueManager) : list string :=
  (List.filter (λ item, is_inactive timeout_seconds current_time item.2)
     (map_to_list (active_users qm))).*1.

(** [clean_inactive_users]: the second loop deletes the listed users. *)
Definition clean_inactive_users `{DateTimeLib} (timeout_seconds : Q) (current_time : Z)
    (qm : QueueManager) : QueueManager :=
  set_active_users
    (foldl (λ users user_id, delete user_id users) (active_users qm)
       (inactive_users timeout_seconds current_time qm))
    qm.

Definition update_user_activity `{DateTimeLib} (now : Z) (user_id : string)
    (qm : QueueManager) : QueueManager :=
  set_active_users (<[user_id := isoformat now]> (active_users qm)) qm.

(** The dictionary returned by [get_queue_stats]. *)
Record Stats := {
  total_input : Z;
  processing : Z;
  stat_response_queue : Z;
  total_processed : Z;
  stat_active_users : Z;
  avg_processing_time : Q;
  uptime_seconds : Z
}.

(** The [uptime] variable of [get_queue_stats]: elapsed seconds, and [0]
    from the [except] branch, taken when [start_time] does not parse and
    when it is offset-aware (the subtraction raises). *)
Definition uptime_of `{DateTimeLib} (now : Z) (qm : QueueManager) : Q :=
  match fromisoformat (start_time qm) with
  | Some start =>
      if offset_aware (start_time qm) then 0
      else total_seconds (now - start)
  | None => 0
  end.

(** [get_queue_stats]; [t_sweep] is the reading of [datetime.now()] inside
    [clean_inactive_users], [t_now] the one of the uptime computation.
    [avg_time] is a float quotient, written here as the exact one. *)
Definition get_queue_stats `{DateTimeLib} (t_sweep t_now : Z) (qm : QueueManager)
  : QueueManager * Stats :=
  let qm1 := clean_inactive_users 15 t_sweep qm in
  let uptime := uptime_of t_now qm1 in
  let avg_time :=
    if 0 <? processed_count qm1 then (uptime / inject_Z (processed_count qm1))%Q
    else 0%Q in
  (qm1,
   {| total_input := Z.of_nat (length (message_queue qm1));
      processing := Z.of_nat (length (processing_queue qm1));
      stat_response_queue := Z.of_nat (length (response_queue qm1));
      total_processed := processed_count qm1;
      stat_active_users := Z.of_nat (size (active_users qm1));
      avg_processing_time := avg_time;
      uptime_seconds := int_of_float uptime |}).

(** What a call leaves: a returned value, or an exception that escapes. *)
Inductive Outcome (A : Type) : Type :=
  | Returned (a : A)
  | Raised.
Arguments Returned {A} a.
Arguments Raised {A}.

(** The [enumerate] loop of [get_response]: index and value of the first
    response of [user_id]. *)
Fixpoint first_response (user_id : string) (l : list Response)
  : option (nat * Response) :=
  match l with
  | [] => None
  | r :: rest =>
      if String.eqb (resp_user_id r) user_id then Some (0%nat, r)
      else match first_response user_id rest with
           | Some (i, r') => Some (S i, r')
           | None => None
           end
  end.

(** [get_response].  The response is popped before its timestamp is
    parsed, so a timestamp that does not parse leaves the response removed
    and raises. *)
Definition get_response `{DateTimeLib} (user_id : string) (qm : QueueManager)
  : QueueManager * Outcome (option Response) :=
  match first_response user_id (response_queue qm) with
  | Some (i, r) =>
      let qm1 := set_response_queue (delete i (response_queue qm)) qm in
      match fromisoformat (resp_timestamp r) with
      | Some t =>
          (set_conversation_history
             (conversation_history qm1 ++
                [ {| ex_user := resp_original_message r;
                     ex_bot := resp_response r;
                     ex_time := strftime_HMS t;
                     ex_user_id := user_id |} ])
             qm1,
           Returned (Some r))
      | None => (qm1, Raised)
      end
  | None => (qm, Returned None)
  end.

(** ** The snapshot store *)

(** The dictionary read back by [json.load]: a field is [None] when its key
    is absent ([last_process_time] also when it is [null]). *)
Record Snapshot := {
  d_message_queue : option (list Message);
  d_processing_queue : option (list Message);
  d_response_queue : option (list Response);
  d_conversation_history : option (list Exchange);
  d_total_messages : option Z;
  d_processed_count : option Z;
  d_active_users : option (gmap string string);
  d_start_time : option string;
  d_queue_log : option (list LogEntry);
  d_last_process_time : option Q
}.

Definition to_dict (qm : QueueManager) : Snapshot :=
  {| d_message_queue := Some (message_queue qm);
     d_processing_queue := Some (processing_queue qm);
     d_response_queue := Some (response_queue qm);
     d_conversation_history := Some (last_n 100 (conversation_history qm));
     d_total_messages := Some (total_messages qm);
     d_processed_count := Some (processed_count qm);
     d_active_users := Some (active_users qm);
     d_start_time := Some (start_time qm);
     d_queue_log := Some (last_n 50 (queue_log qm));
     d_last_process_time := last_process_time qm |}.

(** [from_dict]; [t_init] is the reading of [datetime.now()] made by
    [QueueManager()], [t_default] the one made for the default of
    ['start_time']. *)
Definition from_dict `{DateTimeLib} (t_init t_default : Z) (data : Snapshot)
  : QueueManager :=
  let qm := new_QueueManager t_init in
  {| message_queue := default [] (d_message_queue data);
     processing_queue := default [] (d_processing_queue data);
     response_queue := default [] (d_response_queue data);
     conversation_history := default [] (d_conversation_history data);
     active_users := default ∅ (d_active_users data);
     start_time := default (isoformat t_default) (d_start_time data);
     queue_log := default [] (d_queue_log data);
     last_process_time := d_last_process_time data;
     total_messages := default 0 (d_total_messages data);
     processed_count := default 0 (d_processed_count data) |}.

(** The file [shared_queue_data.json]: absent, not readable as JSON, or
    holding a dictionary.  [json.load (json.dump d)] is taken to be [d]. *)
Inductive QueueFile :=
  | Missing
  | Unreadable
  | Stored (data : Snapshot).

(** [save_queue], when the write succeeds. *)
Definition save_queue (queue_manager : QueueManager) : QueueFile :=
  Stored (to_dict queue_manager).

(** [load_queue]; [t1], [t2], [t3] are the readings of [datetime.now()] in
    call order: two in [from_dict] and one in the sweep when the file holds
    a dictionary, and only [t1], in the final [QueueManager()], otherwise. *)
Definition load_queue `{DateTimeLib} (t1 t2 t3 : Z) (file : QueueFile) : QueueManager :=
  match file with
  | Stored data => clean_inactive_users 30 t3 (from_dict t1 t2 data)
  | Missing | Unreadable => new_QueueManager t1
  end.

(** ** Sequences of operations *)

(** The mutating entry points of [QueueManager], each with the clock
    readings it makes. *)
Inductive Op :=
  | Submit (t_msg t_active t_log : Z) (message user_id : string)
  | Dispatch (current_time : Q) (now : Z)
  | Retrieve (user_id : string)
  | Heartbeat (now : Z) (user_id : string)
  | Sweep (timeout_seconds : Q) (now : Z)
  | QueryStats (t_sweep t_now : Z)
  | Reload (t1 t2 t3 : Z).

Definition step `{DateTimeLib} `{StrLib} (kb : AIMSKnowledgeBase) (qm : QueueManager)
    (op : Op) : QueueManager :=
  match op with
  | Submit t_msg t_active t_log message user_id =>
      add_user_message t_msg t_active t_log message user_id qm
  | Dispatch current_time now => (process_next_message kb current_time now qm).1
  | Retrieve user_id => (get_response user_id qm).1
  | Heartbeat now user_id => update_user_activity now user_id qm
  | Sweep timeout_seconds now => clean_inactive_users timeout_seconds now qm
  | QueryStats t_sweep t_now => (get_queue_stats t_sweep t_now qm).1
  | Reload t1 t2 t3 => load_queue t1 t2 t3 (save_queue qm)
  end.

Definition run `{DateTimeLib} `{StrLib} (kb : AIMSKnowledgeBase) (qm : QueueManager)
    (ops : list Op) : QueueManager :=
  foldl (step kb) qm ops.

(** The [time.time()] readings of the [process_next_message] calls of
    [ops] that returned [True], oldest first. *)
Fixpoint dispatched_at `{DateTimeLib} `{StrLib} (kb : AIMSKnowledgeBase)
    (qm : QueueManager) (ops : list Op) : list Q :=
  match ops with
  | [] => []
  | op :: rest =>
      match op with
      | Dispatch current_time now =>
          if (process_next_message kb current_time now qm).2
          then current_time :: dispatched_at kb (step kb qm op) rest
          else dispatched_at kb (step kb qm op) rest
      | _ => dispatched_at kb (step kb qm op) rest
      end
  end.

(** A submission, as the caller gives it. *)
Record Submission := {
  sub_t_msg : Z;
  sub_t_active : Z;
  sub_t_log : Z;
  sub_message : string;
  sub_user_id : string
}.

Definition submit `{DateTimeLib} (qm : QueueManager) (s : Submission) : QueueManager :=
  add_user_message (sub_t_msg s) (sub_t_active s) (sub_t_log s)
    (sub_message s) (sub_user_id s) qm.

(** The request a submission becomes when it is the [n]-th one (from 0). *)
Definition request_of `{DateTimeLib} (n : nat) (s : Submission) : Message :=
  {| msg_id := Z.of_nat n + 1;
     msg_message := sub_message s;
     msg_timestamp := isoformat (sub_t_msg s);
     msg_user_id := sub_user_id s |}.

(** ** Concrete library instances, used to run the model *)

(** ASCII lower-casing. *)
Definition ascii_lower (a : ascii) : ascii :=
  let n := N_of_ascii a in
  if ((65 <=? n) && (n <=? 90))%N then ascii_of_N (n + 32) else a.

Fixpoint string_lower (s : string) : string :=
  match s with
  | EmptyString => EmptyString
  | String a s' => String (ascii_lower a) (string_lower s')
  end.

Definition ascii_strings : StrLib := {| str_lower := string_lower |}.

Definition digit_of (a : ascii) : option Z :=
  let n := Z.of_N (N_of_ascii a) in
  if (48 <=? n) && (n <=? 57) then Some (n - 48) else None.

Fixpoint parse_digits (acc : Z) (s : string) : option Z :=
  match s with
  | EmptyString => Some acc
  | String a s' =>
      match digit_of a with
      | Some d => parse_digits (10 * acc + d) s'
      | None => None
      end
  end.

Definition digit_char (d : Z) : ascii := ascii_of_N (Z.to_N (48 + d)).

Fixpoint show_digits (fuel : nat) (n : Z) (acc : string) : string :=
  match fuel with
  | O => acc
  | S fuel' =>
      let acc' := String (digit_char (n mod 10)) acc in
      if n / 10 =? 0 then acc' else show_digits fuel' (n / 10) acc'
  end.

(** A toy timestamp format: a naive timestamp is written as its count of
    microseconds in decimal, an offset-aware one as ["+"] followed by the
    digits of its wall-clock reading; anything else does not parse. *)
Definition micros_aware (s : string) : bool :=
  match s with
  | String a _ => Ascii.eqb a "+"
  | EmptyString => false
  end.

Definition micros_parse (s : string) : option Z :=
  match s with
  | EmptyString => None
  | String a rest =>
      if Ascii.eqb a "+" then
        match rest with
        | EmptyString => None
        | _ => parse_digits 0 rest
        end
      else parse_digits 0 s
  end.

Definition micros_write (t : Z) : string :=
  show_digits (S (Z.to_nat (Z.abs t))) (Z.abs t) EmptyString.

Definition micros_clock : DateTimeLib.
Proof.
  refine {| fromisoformat := micros_parse;
            offset_aware := micros_aware;
            isoformat := micros_write;
            strftime_HMS := micros_write;
            isoformat_naive := _ |}.
  assert (∀ fuel n acc,
            (∃ d rest, acc = String (digit_char d) rest ∧ 0 ≤ d < 10) →
            ∃ d rest, show_digits fuel n acc = String (digit_char d) rest
                      ∧ 0 ≤ d < 10) as Hhead.
  { induction fuel as [|fuel IH]; intros n acc Hacc; [exact Hacc|].
    cbn [show_digits]. cbv zeta.
    assert (0 ≤ n mod 10 < 10) as Hd by (apply Z.mod_pos_bound; lia).
    destruct (n / 10 =? 0); [by eexists _, _|].
    apply IH. by eexists _, _. }
  intros t. unfold micros_write. cbn [show_digits]. cbv zeta.
  assert (0 ≤ Z.abs t mod 10 < 10) as Hd by (apply Z.mod_pos_bound; lia).
  assert (∃ d rest,
            (if Z.abs t / 10 =? 0
             then String (digit_char (Z.abs t mod 10)) EmptyString
             else show_digits (Z.to_nat (Z.abs t)) (Z.abs t / 10)
                    (String (digit_char (Z.abs t mod 10)) EmptyString))
            = String (digit_char d) rest ∧ 0 ≤ d < 10) as [d [rest [-> Hd']]].
  { destruct (Z.abs t / 10 =? 0); [by eexists _, _|].
    apply Hhead. by eexists _, _. }
  unfold micros_aware. apply Ascii.eqb_neq. intros Heq.
  apply (f_equal N_of_ascii) in Heq. unfold digit_char in Heq.
  rewrite N_ascii_embedding in Heq by lia. simpl in Heq. lia.
Defined.

(** ** Specification vocabulary *)

(** [k] occurs in [s] as a contiguous substring. *)
Definition is_substring (k s : string) : Prop :=
  ∃ pre post, s = pre +:+ k +:+ post.

(** Some keyword of [p] occurs in [text]. *)
Definition matches (p : Procedure) (text : string) : Prop :=
  ∃ keyword, keyword ∈ keywords p ∧ is_substring keyword text.

(** The rate-limit condition in the words of the specification:
    [last_dispatch_at] is set and [now - last_dispatch_at < min_interval],
    with the reference interval of 3. *)
Definition within_min_interval (current_time : Q) (qm : QueueManager) : Prop :=
  ∃ last, last_process_time qm = Some last ∧ (current_time - last < 3)%Q.

(** Readings at least the minimum interval apart, the later after the
    earlier. *)
Definition spaced (earlier later : Q) : Prop := (3 <= later - earlier)%Q.

(** The age in seconds, at [current_time], of a timestamp that parses. *)
Definition age_of `{DateTimeLib} (current_time : Z) (last_active : string) : option Q :=
  (λ t, total_seconds (current_time - t)) <$> fromisoformat last_active.

(** The state a save followed by a plain [from_dict] gives back. *)
Definition truncated (qm : QueueManager) : QueueManager :=
  set_queue_log (last_n 50 (queue_log qm))
    (set_conversation_history (last_n 100 (conversation_history qm)) qm).

(** The response [process_next_message] builds for [msg]. *)
Definition response_for `{DateTimeLib} `{StrLib} (kb : AIMSKnowledgeBase) (now : Z)
    (msg : Message) : Response :=
  {| resp_id := msg_id msg;
     resp_response :=
       match search_procedure kb (msg_message msg) with
       | Some procedure => response procedure
       | None => get_default_help kb
       end;
     resp_original_message := msg_message msg;
     resp_user_id := msg_user_id msg;
     resp_timestamp := isoformat now |}.

(** The state a successful dispatch of [msg], the head of
    [message_queue = msg :: rest], leaves behind. *)
Definition after_dispatch `{DateTimeLib} `{StrLib} (kb : AIMSKnowledgeBase)
    (current_time : Q) (now : Z) (msg : Message) (rest : list Message)
    (qm : QueueManager) : QueueManager :=
  {| message_queue := rest;
     processing_queue := tail (processing_queue qm ++ [msg]);
     response_queue := response_queue qm ++ [response_for kb now msg];
     conversation_history := conversation_history qm;
     active_users := active_users qm;
     start_time := start_time qm;
     queue_log := queue_log qm;
     last_process_time := Some current_time;
     total_messages := total_messages qm;
     processed_count := processed_count qm + 1 |}.

(** A knowledge base over the table of the source, with placeholder
    answer bodies. *)
Definition demo_kb : AIMSKnowledgeBase :=
  AIMS (λ category, "How to: " +:+ category) "Welcome to AIMSsist!".

(** A state whose last dispatch is stamped [0.0], with one pending request. *)
Definition epoch_state : QueueManager :=
  {| message_queue :=
       [ {| msg_id := 2; msg_message := "grades"; msg_timestamp := "7";
            msg_user_id := "B" |} ];
     processing_queue := [];
     response_queue := [];
     conversation_history := [];
     active_users := ∅;
     start_time := "0";
     queue_log := [];
     last_process_time := Some 0%Q;
     total_messages := 2;
     processed_count := 1 |}.

(** A state reloaded with a request still in [processing_queue]. *)
Definition stale_in_flight : QueueManager :=
  {| message_queue :=
       [ {| msg_id := 2; msg_message := "grades"; msg_timestamp := "7";
            msg_user_id := "B" |} ];
     processing_queue :=
       [ {| msg_id := 1; msg_message := "enroll"; msg_timestamp := "5";
            msg_user_id := "A" |} ];
     response_queue := [];
     conversation_history := [];
     active_users := ∅;
     start_time := "0";
     queue_log := [];
     last_process_time := None;
     total_messages := 2;
     processed_count := 0 |}.

(** A state started at timestamp ["0"] that has processed one request. *)
Definition one_processed : QueueManager :=
  {| message_queue := [];
     processing_queue := [];
     response_queue := [];
     conversation_history := [];
     active_users := ∅;
     start_time := "0";
     queue_log := [];
     last_process_time := Some 1%Q;
     total_messages := 1;
     processed_count := 1 |}.

(** A state whose [start_time] is not a timestamp. *)
Definition broken_clock : QueueManager :=
  {| message_queue := [];
     processing_queue := [];
     response_queue := [];
     conversation_history := [];
     active_users := {[ "A" := "7" ]};
     start_time := "yesterday";
     queue_log := [];
     last_process_time := Some 1%Q;
     total_messages := 4;
     processed_count := 4 |}.

(** A state with a transcript of 100 exchanges and a response waiting for
    user ["A"]. *)
Definition full_transcript : QueueManager :=
  {| message_queue := [];
     processing_queue := [];
     response_queue :=
       [ {| resp_id := 1; resp_response := "How to: Grades";
            resp_original_message := "grades"; resp_user_id := "A";
            resp_timestamp := "20" |} ];
     conversation_history :=
       replicate 100
         {| ex_user := "hello"; ex_bot := "Welcome to AIMSsist!";
            ex_time := "3"; ex_user_id := "B" |};
     active_users := ∅;
     start_time := "0";
     queue_log := [];
     last_process_time := Some 1%Q;
     total_messages := 101;
     processed_count := 101 |}.

(** A state whose only user was last active at timestamp ["0"]. *)
Definition stale_user : QueueManager :=
  {| message_queue := [];
     processing_queue := [];
     response_queue := [];
     conversation_history := [];
     active_users := {[ "A" := "0" ]};
     start_time := "0";
     queue_log := [];
     last_process_time := None;
     total_messages := 0;
     processed_count := 0 |}.

(** Every submitted request is either still pending or processed. *)
Definition balanced (qm : QueueManager) : Prop :=
  total_messages qm = processed_count qm + Z.of_nat (length (message_queue qm)).

(** Two submits, then two dispatch calls with the clock reading [0.0] and
    [1.0]. *)
Definition epoch_calls : list Op :=
  [ Submit 1 2 3 "How do I enroll?" "A";
    Submit 4 5 6 "grades" "B";
    Dispatch 0 7;
    Dispatch 1 8 ].

(** Two clients submit, then two dispatch calls follow one second apart. *)
Definition two_clients : list Op :=
  [ Submit 1 2 3 "How do I enroll?" "A";
    Submit 4 5 6 "xyz unmatched" "B";
    Dispatch 1000 7;
    Dispatch 1001 8 ].

(** A state with a transcript of 150 numbered exchanges. *)
Definition long_transcript : QueueManager :=
  {| message_queue := [];
     processing_queue := [];
     response_queue := [];
     conversation_history :=
       (λ i, {| ex_user := "hello"; ex_bot := "Welcome to AIMSsist!";
                ex_time := @isoformat micros_clock (Z.of_nat i);
                ex_user_id := "B" |}) <$> seq 0 150;
     active_users := ∅;
     start_time := "0";
     queue_log := [];
     last_process_time := None;
     total_messages := 150;
     processed_count := 150 |}.

(** Three users: one last active at second 0, one at second 20, one with a
    timestamp that is not a timestamp. *)
Definition three_users : QueueManager :=
  {| message_queue := [];
     processing_queue := [];
     response_queue := [];
     conversation_history := [];
     active_users := {[ "A" := "0"; "B" := "20000000"; "C" := "soon" ]};
     start_time := "0";
     queue_log := [];
     last_process_time := None;
     total_messages := 0;
     processed_count := 0 |}.

(** ** The remaining entry points *)

Definition peek_next_message (qm : QueueManager) : option Message :=
  head (message_queue qm).

Definition clear_all_queues (qm : QueueManager) : QueueManager :=
  set_response_queue [] (set_processing_queue [] (set_message_queue [] qm)).

(** [get_queue_health]; the clock readings are those of the
    [get_queue_stats] call it makes.  [pretty] is the decimal [str] of the
    f-strings. *)
Definition get_queue_health `{DateTimeLib} (t_sweep t_now : Z) (qm : QueueManager)
  : QueueManager * (string * string) :=
  let '(qm1, stats) := get_queue_stats t_sweep t_now qm in
  let total_queue := total_input stats in
  (qm1,
   if total_queue =? 0 then ("🟢 Excellent", "No waiting requests")
   else if total_queue <=? 3 then
     ("🟡 Good", pretty total_queue +:+ " request(s) in queue")
   else if total_queue <=? 7 then
     ("🟠 Moderate", pretty total_queue +:+ " requests waiting")
   else ("🔴 Heavy", pretty total_queue +:+ " requests - high traffic")).

(** The loop of [get_all_categories].  The dictionary [categories] is the
    list of its items in insertion order; [proc['keywords'][0]] raises
    when the keyword list is empty. *)
Fixpoint categories_loop (procs : list Procedure) (categories : list (string * string))
  : Outcome (list (string * string)) :=
  match procs with
  | [] => Returned categories
  | proc :: rest =>
      let cat := category proc in
      if bool_decide (cat ∈ categories.*1) then categories_loop rest categories
      else match keywords proc with
           | [] => Raised
           | keyword :: _ => categories_loop rest (categories ++ [(cat, keyword)])
           end
  end.

Definition get_all_categories (kb : AIMSKnowledgeBase)
  : Outcome (list (string * string)) :=
  categories_loop (procedures kb) [].

(** [str.strip], a library function. *)
Class StripLib := {
  str_strip : string → string
}.

(** A call of [process_user_question] with the clock readings it makes:
    three in [load_queue], three in [add_user_message]. *)
Record Question := {
  q_load1 : Z;
  q_load2 : Z;
  q_load3 : Z;
  q_t_msg : Z;
  q_t_active : Z;
  q_t_log : Z;
  q_text : string;
  q_user_id : string
}.

(** [not question.strip()] *)
Definition is_blank `{StripLib} (question : string) : bool :=
  String.eqb (str_strip question) EmptyString.

(** [process_user_question], as a function of the file. *)
Definition process_user_question `{DateTimeLib} `{StripLib} (file : QueueFile)
    (q : Question) : QueueFile :=
  if is_blank (q_text q) then file
  else
    let queue_manager := load_queue (q_load1 q) (q_load2 q) (q_load3 q) file in
    save_queue
      (add_user_message (q_t_msg q) (q_t_active q) (q_t_log q)
         (q_text q) (q_user_id q) queue_manager).

(** [strip] on ASCII text: the blanks are the characters 9 to 13, 28 to 31
    and the space. *)
Definition is_space (a : ascii) : bool :=
  let n := N_of_ascii a in
  ((9 <=? n) && (n <=? 13) || (28 <=? n) && (n <=? 32))%N.

Fixpoint lstrip (s : string) : string :=
  match s with
  | EmptyString => EmptyString
  | String a s' => if is_space a then lstrip s' else s
  end.

Fixpoint rstrip (s : string) : string :=
  match s with
  | EmptyString => EmptyString
  | String a s' =>
      match rstrip s' with
      | EmptyString => if is_space a then EmptyString else String a EmptyString
      | rest => String a rest
      end
  end.

Definition ascii_strip : StripLib := {| str_strip := λ s, rstrip (lstrip s) |}.

(** ** More specification vocabulary *)

(** The pending requests and the submission counter a file holds. *)
Definition file_queue (file : QueueFile) : list Message * Z :=
  match file with
  | Stored data => (default [] (d_message_queue data), default 0 (d_total_messages data))
  | Missing | Unreadable => ([], 0)
  end.

(** The request a question becomes when [n] requests were submitted before. *)
Definition request_at `{DateTimeLib} (n : nat) (q : Question) : Message :=
  {| msg_id := Z.of_nat n + 1;
     msg_message := q_text q;
     msg_timestamp := isoformat (q_t_msg q);
     msg_user_id := q_user_id q |}.

(** The ids in a state are in order: the pending requests carry the ids
    after [processed_count], consecutively; the waiting responses carry
    increasing ids up to [processed_count]. *)
Definition ids_in_order (qm : QueueManager) : Prop :=
  msg_id <$> message_queue qm
    = seqZ (processed_count qm + 1) (Z.of_nat (length (message_queue qm)))
  ∧ StronglySorted Z.lt (resp_id <$> response_queue qm)
  ∧ Forall (λ r, 1 ≤ resp_id r ≤ processed_count qm) (response_queue qm).

(** A run with two dispatches four seconds apart. *)
Definition spaced_calls : list Op :=
  [ Submit 1 2 3 "How do I enroll?" "A";
    Submit 4 5 6 "grades" "B";
    Dispatch 1000 7;
    Dispatch 1001 8;
    Dispatch 1004 9 ].

(** A state whose waiting response carries a timestamp that is not one. *)
Definition bad_stamp : QueueManager :=
  {| message_queue := [];
     processing_queue := [];
     response_queue :=
       [ {| resp_id := 1; resp_response := "How to: Grades";
            resp_original_message := "grades"; resp_user_id := "A";
            resp_timestamp := "noon" |} ];
     conversation_history := [];
     active_users := ∅;
     start_time := "0";
     queue_log := [];
     last_process_time := Some 1%Q;
     total_messages := 1;
     processed_count := 1 |}.

(** A state whose only user has a timestamp that parses but carries a UTC
    offset, with a wall-clock reading of second 29. *)
Definition aware_user : QueueManager :=
  {| message_queue := [];
     processing_queue := [];
     response_queue := [];
     conversation_history := [];
     active_users := {[ "A" := "+29000000" ]};
     start_time := "0";
     queue_log := [];
     last_process_time := None;
     total_messages := 0;
     processed_count := 0 |}.

(** * Properties *)

(** ** Numbers and slices *)

Lemma Qltb_true (a b : Q) : Qltb a b = true ↔ (a < b)%Q.
Proof.
  unfold Qltb. rewrite negb_true_iff. split.
  - intros Hb. apply Qnot_le_lt. intros Hle.
    apply Qle_bool_iff in Hle. congruence.
  - intros Hlt. destruct (Qle_bool b a) eqn:E; [|done].
    apply Qle_bool_iff in E. lra.
Qed.

Lemma Qltb_false (a b : Q) : Qltb a b = false ↔ (b <= a)%Q.
Proof.
  unfold Qltb. rewrite negb_false_iff. apply Qle_bool_iff.
Qed.

Lemma float_truthy_true (x : Q) : float_truthy x = true ↔ ¬ (x == 0)%Q.
Proof.
  unfold float_truthy. rewrite negb_true_iff. split.
  - intros Hb Heq. apply Qeq_bool_iff in Heq. congruence.
  - intros Hne. destruct (Qeq_bool x 0) eqn:E; [|done].
    apply Qeq_bool_iff in E. contradiction.
Qed.

Lemma last_n_short {A} (n : nat) (l : list A) :
  (length l ≤ n)%nat → last_n n l = l.
Proof.
  intros Hle. unfold last_n.
  replace (length l - n)%nat with 0%nat by lia. done.
Qed.

Lemma last_n_length {A} (n : nat) (l : list A) :
  length (last_n n l) = (length l `min` n)%nat.
Proof. unfold last_n. rewrite length_drop. lia. Qed.

Lemma last_n_suffix {A} (n : nat) (l : list A) : last_n n l `suffix_of` l.
Proof. unfold last_n. apply suffix_drop. Qed.

(** ** The resolver *)

Lemma str_prefix_spec (k s : string) :
  str_prefix k s = true ↔ ∃ post, s = k +:+ post.
Proof.
  revert s. induction k as [|a k IH]; intros s; simpl.
  - split; [intros _; by exists s | done].
  - destruct s as [|b s].
    + split; [done | intros [post Hpost]; discriminate].
    + destruct (Ascii.eqb a b) eqn:E.
      * apply Ascii.eqb_eq in E. subst b. rewrite IH. split.
        -- intros [post ->]. by exists post.
        -- intros [post Hpost]. injection Hpost as ->. by exists post.
      * apply Ascii.eqb_neq in E. split; [done|].
        intros [post Hpost]. injection Hpost as -> _. done.
Qed.

Lemma str_in_spec (k s : string) : str_in k s = true ↔ is_substring k s.
Proof.
  unfold is_substring. induction s as [|b s IH]; simpl.
  - rewrite orb_false_r, str_prefix_spec. split.
    + intros [post Hpost]. by exists EmptyString, post.
    + intros [pre [post Hs]]. destruct pre; [by exists post | discriminate].
  - rewrite orb_true_iff, str_prefix_spec, IH. split.
    + intros [[post Hpost] | [pre [post Hs]]].
      * by exists EmptyString, post.
      * exists (String b pre), post. simpl. by rewrite Hs.
    + intros [pre [post Hs]]. destruct pre as [|c pre]; simpl in Hs.
      * left. by exists post.
      * right. injection Hs as _ ->. by exists pre, post.
Qed.

Lemma any_keyword_in_spec (p : Procedure) (text : string) :
  any_keyword_in p text = true ↔ matches p text.
Proof.
  unfold any_keyword_in, matches. rewrite existsb_exists. split.
  - intros [k [Hin Hk]]. exists k. split.
    + by apply list_elem_of_In.
    + by apply str_in_spec.
  - intros [k [Hin Hk]]. exists k. split.
    + by apply list_elem_of_In.
    + by apply str_in_spec.
Qed.

Lemma search_loop_spec (procs : list Procedure) (text : string) :
  match search_loop procs text with
  | Some p =>
      ∃ i, procs !! i = Some p ∧ matches p text ∧
           ∀ j q, (j < i)%nat → procs !! j = Some q → ¬ matches q text
  | None => ∀ q, q ∈ procs → ¬ matches q text
  end.
Proof.
  induction procs as [|p procs IH]; simpl.
  - intros q Hq. by apply not_elem_of_nil in Hq.
  - destruct (any_keyword_in p text) eqn:E.
    + exists 0%nat. split; [done|]. split; [by apply any_keyword_in_spec|].
      intros j q Hj. lia.
    + assert (¬ matches p text) as Hp.
      { intros Hm. apply any_keyword_in_spec in Hm. congruence. }
      destruct (search_loop procs text) as [p'|].
      * destruct IH as [i [Hi [Hm Hbefore]]].
        exists (S i). split; [done|]. split; [done|].
        intros [|j] q Hj Hq; simpl in Hq.
        -- by injection Hq as <-.
        -- apply (Hbefore j q); [lia | done].
      * intros q Hq. apply elem_of_cons in Hq as [-> | Hq]; [done | by apply IH].
Qed.

(** C7. [search_procedure] lower-cases the message and returns the first
    procedure, in list order, one of whose keywords is a substring of the
    lower-cased message: the procedure returned sits at some position [i],
    it matches, and no procedure at an earlier position matches; [None] is
    returned exactly when no procedure of the list matches. *)
Theorem search_procedure_first_match `{StrLib} (kb : AIMSKnowledgeBase)
    (user_message : string) :
  match search_procedure kb user_message with
  | Some p =>
      ∃ i, procedures kb !! i = Some p ∧
           matches p (str_lower user_message) ∧
           ∀ j q, (j < i)%nat → procedures kb !! j = Some q →
                  ¬ matches q (str_lower user_message)
  | None => ∀ q, q ∈ procedures kb → ¬ matches q (str_lower user_message)
  end.
Proof. unfold search_procedure. apply search_loop_spec. Qed.

(** A message with keywords of two procedures gets the earlier one:
    ["enrollment form"] is a keyword of the sixth procedure, and contains
    ["enroll"], a keyword of the first. *)
Example search_procedure_earliest_wins (body : string → string) (help : string) :
  category <$> @search_procedure ascii_strings (AIMS body help)
                 "Where is my Enrollment Form?"
  = Some "Enrollment".
Proof. reflexivity. Qed.

Example search_procedure_no_match (body : string → string) (help : string) :
  @search_procedure ascii_strings (AIMS body help) "xyz unmatched" = None.
Proof. reflexivity. Qed.

(** ** Submission *)

Section Submission.
Context `{DateTimeLib}.

Lemma submit_message_queue (qm : QueueManager) (s : Submission) :
  message_queue (submit qm s) =
    message_queue qm ++
      [ {| msg_id := total_messages qm + 1;
           msg_message := sub_message s;
           msg_timestamp := isoformat (sub_t_msg s);
           msg_user_id := sub_user_id s |} ].
Proof. reflexivity. Qed.

Lemma submit_total_messages (qm : QueueManager) (s : Submission) :
  total_messages (submit qm s) = total_messages qm + 1.
Proof. reflexivity. Qed.

(** From any state: the submissions are appended in order, the [i]-th
    with id [total_messages + i + 1]. *)
Lemma submits_from (subs : list Submission) (qm : QueueManager) :
  message_queue (foldl submit qm subs) =
    message_queue qm ++
      imap (λ i s, {| msg_id := total_messages qm + Z.of_nat i + 1;
                      msg_message := sub_message s;
                      msg_timestamp := isoformat (sub_t_msg s);
                      msg_user_id := sub_user_id s |}) subs
  ∧ total_messages (foldl submit qm subs) =
      total_messages qm + Z.of_nat (length subs).
Proof.
  revert qm. induction subs as [|s subs IH]; intros qm.
  - simpl. rewrite app_nil_r. split; [done | lia].
  - cbn [foldl]. destruct (IH (submit qm s)) as [-> ->].
    rewrite submit_message_queue, submit_total_messages. split.
    + rewrite <- app_assoc. f_equal. cbn [imap app]. f_equal.
      * f_equal. lia.
      * apply imap_ext. intros i x _. simpl. f_equal. lia.
    + simpl length. lia.
Qed.

Lemma imap_ids_sorted (subs : list Submission) (base : nat) :
  StronglySorted Z.lt
    (msg_id <$> imap (λ i s, request_of (base + i) s) subs).
Proof.
  revert base. induction subs as [|s subs IH]; intros base.
  - constructor.
  - cbn [imap fmap list_fmap]. constructor.
    + replace (imap ((λ i s0, request_of (base + i) s0) ∘ S) subs)
        with (imap (λ i s0, request_of (S base + i) s0) subs).
      * apply IH.
      * apply imap_ext. intros i x _. simpl. repeat f_equal. lia.
    + apply Forall_forall. intros z Hz.
      apply list_elem_of_fmap in Hz as [m [-> Hm]].
      apply elem_of_lookup_imap in Hm as [i [x [-> _]]].
      simpl. lia.
Qed.

(** C5. Starting from the fresh empty state, a sequence of submits leaves
    in [message_queue] exactly the submitted requests in arrival order,
    the [i]-th (counting from 0) with id [i + 1], so the ids start at 1
    and increase strictly; [total_messages] is the number of submits.
    Each single submit, from any state, takes the id
    [total_messages + 1], appends at the tail and increments
    [total_messages]. *)
Theorem submits_in_arrival_order (now : Z) (subs : list Submission) :
  let qm := foldl submit (new_QueueManager now) subs in
  message_queue qm = imap request_of subs
  ∧ msg_id <$> message_queue qm = (λ i, Z.of_nat i + 1) <$> seq 0 (length subs)
  ∧ StronglySorted Z.lt (msg_id <$> message_queue qm)
  ∧ total_messages qm = Z.of_nat (length subs)
  ∧ ∀ (s : Submission) (qm0 : QueueManager),
      message_queue (submit qm0 s) =
        message_queue qm0 ++
          [ {| msg_id := total_messages qm0 + 1;
               msg_message := sub_message s;
               msg_timestamp := isoformat (sub_t_msg s);
               msg_user_id := sub_user_id s |} ]
      ∧ total_messages (submit qm0 s) = total_messages qm0 + 1.
Proof.
  intros qm.
  destruct (submits_from subs (new_QueueManager now)) as [Hq Ht].
  fold qm in Hq, Ht. simpl in Hq, Ht.
  assert (message_queue qm = imap request_of subs) as Hq'.
  { rewrite Hq. apply imap_ext. intros i x _. unfold request_of. f_equal. }
  split; [done|]. split; [|split; [|split; [lia|]]].
  - rewrite Hq'. apply list_eq. intros i.
    rewrite !list_lookup_fmap, list_lookup_imap.
    destruct (subs !! i) as [s|] eqn:E; simpl.
    + rewrite lookup_seq_lt; [done|]. by apply lookup_lt_Some in E.
    + rewrite lookup_seq_ge; [done|]. by apply lookup_ge_None in E.
  - rewrite Hq'. apply (imap_ids_sorted subs 0).
  - intros s qm0. split; [apply submit_message_queue | apply submit_total_messages].
Qed.
End Submission.

(** ** Dispatch *)

Section Dispatch.
Context `{DateTimeLib} `{StrLib}.
Variable kb : AIMSKnowledgeBase.

Lemma rate_limited_true (current_time : Q) (qm : QueueManager) :
  rate_limited current_time qm = true ↔
  ∃ last, last_process_time qm = Some last ∧ ¬ (last == 0)%Q ∧
          (current_time - last < 3)%Q.
Proof.
  unfold rate_limited. destruct (last_process_time qm) as [last|].
  - rewrite andb_true_iff, float_truthy_true, Qltb_true. split.
    + intros [Hnz Hlt]. by exists last.
    + intros [last' [[= <-] [Hnz Hlt]]]. done.
  - split; [done | intros [last [? _]]; done].
Qed.

(** The guard of the code fires only inside the specified window. *)
Lemma rate_limited_within (current_time : Q) (qm : QueueManager) :
  rate_limited current_time qm = true → within_min_interval current_time qm.
Proof.
  intros Hr. apply rate_limited_true in Hr as [last [Hl [_ Hlt]]].
  by exists last.
Qed.

Lemma not_within_not_limited (current_time : Q) (qm : QueueManager) :
  ¬ within_min_interval current_time qm → rate_limited current_time qm = false.
Proof.
  intros Hn. destruct (rate_limited current_time qm) eqn:E; [|done].
  by apply rate_limited_within in E.
Qed.

(** When the guard fires nothing is touched. *)
Lemma throttled_unchanged (current_time : Q) (now : Z) (qm : QueueManager) :
  rate_limited current_time qm = true →
  process_next_message kb current_time now qm = (qm, false).
Proof. intros Hr. unfold process_next_message. by rewrite Hr. Qed.

(** Throttling for a last dispatch stamped with a non-zero reading. *)
Lemma throttled_nonzero (current_time last : Q) (now : Z) (qm : QueueManager) :
  last_process_time qm = Some last → ¬ (last == 0)%Q →
  (current_time - last < 3)%Q →
  process_next_message kb current_time now qm = (qm, false).
Proof.
  intros Hl Hnz Hlt. apply throttled_unchanged, rate_limited_true.
  by exists last.
Qed.

Lemma empty_unchanged (current_time : Q) (now : Z) (qm : QueueManager) :
  message_queue qm = [] →
  process_next_message kb current_time now qm = (qm, false).
Proof.
  intros Hq. unfold process_next_message, dequeue. rewrite Hq.
  by destruct (rate_limited current_time qm).
Qed.

(** The effect of a dispatch that passes the guard. *)
Lemma dispatch_effect (current_time : Q) (now : Z) (qm : QueueManager)
    (msg : Message) (rest : list Message) :
  rate_limited current_time qm = false →
  message_queue qm = msg :: rest →
  process_next_message kb current_time now qm =
    (after_dispatch kb current_time now msg rest qm, true).
Proof.
  intros Hr Hq. unfold process_next_message, dequeue. rewrite Hr, Hq.
  unfold after_dispatch, pop_processing, response_for. simpl.
  destruct (processing_queue qm); reflexivity.
Qed.

(** The three ways a call can go. *)
Lemma process_next_message_cases (current_time : Q) (now : Z) (qm : QueueManager) :
  process_next_message kb current_time now qm = (qm, false)
  ∨ ∃ msg rest,
      rate_limited current_time qm = false ∧
      message_queue qm = msg :: rest ∧
      process_next_message kb current_time now qm =
        (after_dispatch kb current_time now msg rest qm, true).
Proof.
  destruct (rate_limited current_time qm) eqn:Hr.
  - left. by apply throttled_unchanged.
  - destruct (message_queue qm) as [|msg rest] eqn:Hq.
    + left. by apply empty_unchanged.
    + right. exists msg, rest. split; [done|]. split; [done|].
      by apply dispatch_effect.
Qed.

(** C2, amended. For a state that is not inside the minimum interval and
    whose [message_queue] is [msg :: rest], the call returns [True] and the
    state differs from the old one exactly as follows: [message_queue] is
    [rest]; [response_queue] has one more, last, element, the response with
    the id, text and user of [msg], whose answer is the matched procedure's
    response or else the default help; [processing_queue] has [msg]
    appended and its oldest entry removed; [processed_count] is one more;
    [last_process_time] is the clock reading. In particular
    [processing_queue] is empty on return whenever it was empty at the
    call. *)
Theorem dispatch_postcondition (current_time : Q) (now : Z) (qm : QueueManager)
    (msg : Message) (rest : list Message) :
  ¬ within_min_interval current_time qm →
  message_queue qm = msg :: rest →
  process_next_message kb current_time now qm =
    ({| message_queue := rest;
        processing_queue := tail (processing_queue qm ++ [msg]);
        response_queue :=
          response_queue qm ++
            [ {| resp_id := msg_id msg;
                 resp_response :=
                   match search_procedure kb (msg_message msg) with
                   | Some procedure => response procedure
                   | None => get_default_help kb
                   end;
                 resp_original_message := msg_message msg;
                 resp_user_id := msg_user_id msg;
                 resp_timestamp := isoformat now |} ];
        conversation_history := conversation_history qm;
        active_users := active_users qm;
        start_time := start_time qm;
        queue_log := queue_log qm;
        last_process_time := Some current_time;
        total_messages := total_messages qm;
        processed_count := processed_count qm + 1 |}, true)
  ∧ (processing_queue qm = [] →
     processing_queue (process_next_message kb current_time now qm).1 = []).
Proof.
  intros Hn Hq.
  rewrite (dispatch_effect current_time now qm msg rest);
    [| by apply not_within_not_limited | done].
  split; [reflexivity|]. intros Hp. simpl. by rewrite Hp.
Qed.
End Dispatch.

(** The guard at a stamp of [0.0], which only a clock within three seconds
    of the epoch can produce: the truth test takes the stamp for unset, so
    a call at reading [1.0] is let through. The same from the fresh state:
    of two dispatch calls made at readings [0.0] and [1.0], both return
    [True]. *)
Theorem dispatch_after_zero_timestamp :
  let result :=
    @process_next_message micros_clock ascii_strings demo_kb 1 9 epoch_state in
  within_min_interval 1 epoch_state
  ∧ result.2 = true
  ∧ result.1 ≠ epoch_state
  ∧ message_queue result.1 = []
  ∧ length (response_queue result.1) = 1%nat
  ∧ @dispatched_at micros_clock ascii_strings demo_kb
      (@new_QueueManager micros_clock 0) epoch_calls = [0%Q; 1%Q].
Proof.
  split.
  - exists 0%Q. split; [done | reflexivity].
  - split; [reflexivity|]. split; [|split; [|split]; reflexivity].
    intros Heq. apply (f_equal message_queue) in Heq. discriminate.
Qed.

(** C2, as stated, fails on a state that already holds a request in
    [processing_queue]: the call is not throttled, [message_queue] is not
    empty, the call succeeds, and [processing_queue] is not empty on return
    (the older request was popped, the one just dispatched stays). *)
Lemma in_flight_not_cleared :
  let result :=
    @process_next_message micros_clock ascii_strings demo_kb 100 9 stale_in_flight in
  ¬ within_min_interval 100 stale_in_flight
  ∧ message_queue stale_in_flight ≠ []
  ∧ result.2 = true
  ∧ processing_queue result.1 = message_queue stale_in_flight
  ∧ processing_queue result.1 ≠ [].
Proof.
  split; [intros [last [? _]]; done|].
  split; [done|]. split; [reflexivity|]. split; [reflexivity | done].
Qed.

(** The postcondition at work: the first dispatch after one submit to the
    fresh state answers with the enrollment procedure. *)
Lemma dispatch_postcondition_witness :
  let qm := @add_user_message micros_clock 10 11 12 "How do I enroll?" "A"
              (@new_QueueManager micros_clock 5) in
  ¬ within_min_interval 100 qm
  ∧ (∃ msg, message_queue qm = [msg])
  ∧ processing_queue qm = []
  ∧ (@process_next_message micros_clock ascii_strings demo_kb 100 20 qm).2 = true
  ∧ resp_response <$>
      response_queue (@process_next_message micros_clock ascii_strings demo_kb 100 20 qm).1
    = ["How to: Enrollment"].
Proof.
  intros qm.
  assert (¬ within_min_interval 100 qm) as Hn by (intros [last [? _]]; done).
  split; [exact Hn|]. split; [eexists; reflexivity|]. split; [reflexivity|].
  destruct (@dispatch_postcondition micros_clock ascii_strings demo_kb 100 20 qm
              _ [] Hn eq_refl) as [-> _].
  split; reflexivity.
Defined.

(** ** The inactivity sweep *)

Section Sweep.
Context `{DateTimeLib}.

Lemma is_inactive_false (timeout_seconds : Q) (current_time : Z) (last_active : string) :
  is_inactive timeout_seconds current_time last_active = false ↔
  offset_aware last_active = false ∧
  ∃ age, age_of current_time last_active = Some age ∧ (age <= timeout_seconds)%Q.
Proof.
  unfold is_inactive, age_of. destruct (fromisoformat last_active) as [t|]; simpl.
  - destruct (offset_aware last_active).
    + split; [done | intros [? _]; done].
    + rewrite Qltb_false. split.
      * intros Hle. split; [done | by eexists].
      * intros [_ [age [[= <-] Hle]]]. done.
  - split; [done | intros [_ [age [? _]]]; done].
Qed.

Lemma is_inactive_true (timeout_seconds : Q) (current_time : Z) (last_active : string) :
  is_inactive timeout_seconds current_time last_active = true ↔
  fromisoformat last_active = None ∨
  offset_aware last_active = true ∨
  ∃ age, age_of current_time last_active = Some age ∧ (timeout_seconds < age)%Q.
Proof.
  unfold is_inactive, age_of. destruct (fromisoformat last_active) as [t|]; simpl.
  - destruct (offset_aware last_active).
    + split; [intros _; right; by left | done].
    + rewrite Qltb_true. split.
      * intros Hlt. right. right. by eexists.
      * intros [? | [? | [age [[= <-] Hlt]]]]; done.
  - split; [by left | done].
Qed.

Lemma lookup_delete_all (ks : list string) (m : gmap string string) (k : string) :
  foldl (λ users user_id, delete user_id users) m ks !! k =
    if decide (k ∈ ks) then None else m !! k.
Proof.
  revert m. induction ks as [|k' ks IH]; intros m.
  - cbn [foldl]. destruct (decide (k ∈ [])) as [Hin|_]; [|done].
    by apply not_elem_of_nil in Hin.
  - cbn [foldl]. rewrite IH.
    destruct (decide (k ∈ ks)) as [Hin|Hnin];
      destruct (decide (k ∈ k' :: ks)) as [Hin'|Hnin']; try done.
    + exfalso. apply Hnin'. by apply list_elem_of_further.
    + apply elem_of_cons in Hin' as [->|?]; [apply lookup_delete_eq | done].
    + apply lookup_delete_ne. intros ->. apply Hnin', list_elem_of_here.
Qed.

Lemma elem_of_inactive_users (timeout_seconds : Q) (current_time : Z)
    (qm : QueueManager) (user_id : string) :
  user_id ∈ inactive_users timeout_seconds current_time qm ↔
  ∃ last_active, active_users qm !! user_id = Some last_active ∧
                 is_inactive timeout_seconds current_time last_active = true.
Proof.
  unfold inactive_users. rewrite list_elem_of_fmap. split.
  - intros [[u ts] [-> Hin]]. apply list_elem_of_In, filter_In in Hin as [Hin Hi].
    apply list_elem_of_In, elem_of_map_to_list in Hin. by exists ts.
  - intros [ts [Hl Hi]]. exists (user_id, ts). split; [done|].
    apply list_elem_of_In, filter_In. split; [|done].
    by apply list_elem_of_In, elem_of_map_to_list.
Qed.

(** What the sweep leaves under each key. *)
Lemma clean_inactive_users_lookup (timeout_seconds : Q) (current_time : Z)
    (qm : QueueManager) (user_id : string) :
  active_users (clean_inactive_users timeout_seconds current_time qm) !! user_id =
    match active_users qm !! user_id with
    | Some last_active =>
        if is_inactive timeout_seconds current_time last_active then None
        else Some last_active
    | None => None
    end.
Proof.
  unfold clean_inactive_users. simpl. rewrite lookup_delete_all.
  destruct (decide (user_id ∈ inactive_users timeout_seconds current_time qm))
    as [Hin|Hnin].
  - apply elem_of_inactive_users in Hin as [ts [-> ->]]. done.
  - destruct (active_users qm !! user_id) as [ts|] eqn:Hl; [|done].
    destruct (is_inactive timeout_seconds current_time ts) eqn:Hi; [|done].
    exfalso. apply Hnin, elem_of_inactive_users. by exists ts.
Qed.

(** C6, amended. After [clean_inactive_users timeout] every entry that
    remains was there before, its timestamp parses to a naive time and its
    age is at most the timeout; every entry that was removed has a
    timestamp that does not parse, or one that parses but carries a UTC
    offset, or had an age strictly greater than the timeout; an entry
    whose timestamp does not parse, or carries a UTC offset, is always
    removed; and nothing but [active_users] differs from the state
    before. *)
Theorem clean_inactive_users_spec (timeout_seconds : Q) (current_time : Z)
    (qm : QueueManager) :
  let qm' := clean_inactive_users timeout_seconds current_time qm in
  (∀ user_id last_active,
      active_users qm' !! user_id = Some last_active →
      active_users qm !! user_id = Some last_active ∧
      offset_aware last_active = false ∧
      ∃ t, fromisoformat last_active = Some t ∧
           (total_seconds (current_time - t) <= timeout_seconds)%Q)
  ∧ (∀ user_id last_active,
      active_users qm !! user_id = Some last_active →
      active_users qm' !! user_id = None →
      fromisoformat last_active = None ∨
      offset_aware last_active = true ∨
      ∃ t, fromisoformat last_active = Some t ∧
           (timeout_seconds < total_seconds (current_time - t))%Q)
  ∧ (∀ user_id last_active,
      active_users qm !! user_id = Some last_active →
      fromisoformat last_active = None ∨ offset_aware last_active = true →
      active_users qm' !! user_id = None)
  ∧ qm' = set_active_users (active_users qm') qm.
Proof.
  intros qm'. split; [|split; [|split]].
  - intros u ts Hl. unfold qm' in Hl.
    rewrite clean_inactive_users_lookup in Hl.
    destruct (active_users qm !! u) as [ts'|]; [|done].
    destruct (is_inactive timeout_seconds current_time ts') eqn:Hi; [done|].
    injection Hl as ->. split; [done|].
    apply is_inactive_false in Hi as [Hnaive [age [Hage Hle]]].
    split; [done|]. unfold age_of in Hage.
    destruct (fromisoformat ts) as [t|]; [|done].
    injection Hage as <-. by exists t.
  - intros u ts Hl Hgone. unfold qm' in Hgone.
    rewrite clean_inactive_users_lookup, Hl in Hgone.
    destruct (is_inactive timeout_seconds current_time ts) eqn:Hi; [|done].
    apply is_inactive_true in Hi as [Hp | [Haware | [age [Hage Hold]]]];
      [by left | right; by left |].
    right. right. unfold age_of in Hage.
    destruct (fromisoformat ts) as [t|]; [|done].
    injection Hage as <-. by exists t.
  - intros u ts Hl Hbad. unfold qm'.
    rewrite clean_inactive_users_lookup, Hl.
    replace (is_inactive timeout_seconds current_time ts) with true; [done|].
    symmetry. apply is_inactive_true.
    destruct Hbad as [Hp | Haware]; [by left | right; by left].
  - reflexivity.
Qed.
End Sweep.

(** C6, as stated, fails on a timestamp that carries a UTC offset: the
    entry of user ["A"] parses, its wall-clock reading is one second old at
    the time of the sweep, so it neither fails to parse nor is older than
    the timeout of 15 seconds, and the sweep removes it. *)
Lemma aware_timestamp_evicted :
  let swept := @clean_inactive_users micros_clock 15 30000000 aware_user in
  active_users aware_user !! "A" = Some "+29000000"
  ∧ @fromisoformat micros_clock "+29000000" = Some 29000000
  ∧ (total_seconds (30000000 - 29000000) <= 15)%Q
  ∧ active_users swept !! "A" = None
  ∧ ¬ (@fromisoformat micros_clock "+29000000" = None
       ∨ ∃ age, @age_of micros_clock 30000000 "+29000000" = Some age
                ∧ (15 < age)%Q).
Proof.
  intros swept. split; [reflexivity|]. split; [reflexivity|].
  split; [vm_compute; discriminate|]. split.
  - unfold swept. rewrite (@clean_inactive_users_lookup micros_clock). reflexivity.
  - intros [Hp | [age [Hage Hold]]]; [discriminate Hp|].
    vm_compute in Hage. injection Hage as <-. vm_compute in Hold. discriminate.
Qed.

(** The sweep at work on three users: the one seen 10 seconds ago stays. *)
Lemma clean_inactive_users_spec_witness :
  let swept := @clean_inactive_users micros_clock 15 30000000 three_users in
  active_users swept !! "B" = Some "20000000"
  ∧ @offset_aware micros_clock "20000000" = false
  ∧ ∃ t, @fromisoformat micros_clock "20000000" = Some t
         ∧ (total_seconds (30000000 - t) <= 15)%Q.
Proof.
  intros swept.
  assert (active_users swept !! "B" = Some "20000000") as Hkept.
  { unfold swept. rewrite (@clean_inactive_users_lookup micros_clock). reflexivity. }
  split; [exact Hkept|].
  destruct (@clean_inactive_users_spec micros_clock 15 30000000 three_users)
    as [Hremain _].
  destruct (Hremain "B" "20000000" Hkept) as [_ Hrest]. exact Hrest.
Defined.

(** ** Statistics *)

Section Statistics.
Context `{DateTimeLib}.

Lemma uptime_of_clean (timeout_seconds : Q) (t_sweep t_now : Z) (qm : QueueManager) :
  uptime_of t_now (clean_inactive_users timeout_seconds t_sweep qm) = uptime_of t_now qm.
Proof. reflexivity. Qed.

(** C8, amended. [get_queue_stats] leaves the state swept with the
    timeout of 15 seconds. When [start_time] parses to a naive time
    [start], the average it returns is the elapsed time [t_now - start] in
    seconds, not truncated (the elapsed microseconds over a million),
    divided by [processed_count] when that is positive, and the
    [uptime_seconds] it returns is that elapsed time truncated to whole
    seconds. When [start_time] does not parse or carries a UTC offset, the
    uptime is 0, and so are [uptime_seconds] and the average. The average
    is 0 whenever [processed_count] is not positive, and [total_processed]
    is [processed_count]. *)
Theorem get_queue_stats_average (t_sweep t_now : Z) (qm : QueueManager) :
  let result := get_queue_stats t_sweep t_now qm in
  result.1 = clean_inactive_users 15 t_sweep qm
  ∧ total_processed result.2 = processed_count qm
  ∧ (∀ start,
       fromisoformat (start_time qm) = Some start →
       offset_aware (start_time qm) = false →
       uptime_seconds result.2 = Z.quot (t_now - start) 1000000
       ∧ (0 < processed_count qm →
          avg_processing_time result.2 =
            (Qmake (t_now - start) 1000000 / inject_Z (processed_count qm))%Q))
  ∧ (fromisoformat (start_time qm) = None ∨ offset_aware (start_time qm) = true →
     uptime_seconds result.2 = 0 ∧ (avg_processing_time result.2 == 0)%Q)
  ∧ (processed_count qm ≤ 0 → avg_processing_time result.2 = 0%Q).
Proof.
  intros result. split; [done|]. split; [done|].
  unfold result, get_queue_stats. simpl. unfold uptime_of. simpl.
  split; [|split].
  - intros start Hstart Hnaive. rewrite Hstart, Hnaive. split; [reflexivity|].
    intros Hpos. apply Z.ltb_lt in Hpos. by rewrite Hpos.
  - intros Hbad.
    assert (match fromisoformat (start_time qm) with
            | Some start =>
                if offset_aware (start_time qm) then 0%Q
                else total_seconds (t_now - start)
            | None => 0%Q
            end = 0%Q) as ->.
    { destruct Hbad as [-> | Haware]; [done|].
      rewrite Haware. by destruct (fromisoformat (start_time qm)). }
    split; [reflexivity|].
    destruct (0 <? processed_count qm); [|reflexivity].
    unfold Qdiv. apply Qmult_0_l.
  - intros Hle. apply Z.ltb_ge in Hle. by rewrite Hle.
Qed.

(** C10. When [start_time] does not parse, [get_queue_stats] still
    returns: the uptime is taken to be 0, so [uptime_seconds] is 0 and the
    average is 0 whatever [processed_count] is. *)
Theorem get_queue_stats_malformed_clock (t_sweep t_now : Z) (qm : QueueManager) :
  fromisoformat (start_time qm) = None →
  ∃ stats,
    get_queue_stats t_sweep t_now qm = (clean_inactive_users 15 t_sweep qm, stats)
    ∧ uptime_seconds stats = 0
    ∧ (avg_processing_time stats == 0)%Q.
Proof.
  intros Hp. eexists. split; [reflexivity|]. simpl.
  unfold uptime_of. simpl. rewrite Hp. split; [reflexivity|].
  destruct (0 <? processed_count qm); [|reflexivity].
  unfold Qdiv. apply Qmult_0_l.
Qed.
End Statistics.

(** C8, as stated, fails when the uptime is not a whole number of seconds:
    1.5 seconds after the start and with one request processed, the average
    is 1.5 while the returned [uptime_seconds] divided by the returned
    [total_processed] is 1. *)
Lemma average_is_not_of_truncated_uptime :
  let stats := (@get_queue_stats micros_clock 1500000 1500000 one_processed).2 in
  0 < total_processed stats
  ∧ (avg_processing_time stats == 3 # 2)%Q
  ∧ uptime_seconds stats = 1
  ∧ ¬ (avg_processing_time stats ==
       inject_Z (uptime_seconds stats) / inject_Z (total_processed stats))%Q.
Proof.
  split; [reflexivity|]. split; [reflexivity|]. split; [reflexivity|].
  intros Heq. vm_compute in Heq. discriminate.
Qed.

(** The average at work, 1.5 seconds after the start with one request
    processed. *)
Lemma get_queue_stats_average_witness :
  let result := @get_queue_stats micros_clock 1500000 1500000 one_processed in
  @fromisoformat micros_clock (start_time one_processed) = Some 0
  ∧ @offset_aware micros_clock (start_time one_processed) = false
  ∧ 0 < processed_count one_processed
  ∧ uptime_seconds result.2 = 1
  ∧ (avg_processing_time result.2 == 3 # 2)%Q.
Proof.
  intros result.
  destruct (@get_queue_stats_average micros_clock 1500000 1500000 one_processed)
    as [_ [_ [Hparsed _]]].
  destruct (Hparsed 0 eq_refl eq_refl) as [Hsec Havg]. fold result in Hsec, Havg.
  split; [reflexivity|]. split; [reflexivity|]. split; [reflexivity|].
  split; [by rewrite Hsec|]. rewrite Havg; reflexivity.
Defined.

(** The statistics of a state whose [start_time] is ["yesterday"]. *)
Lemma get_queue_stats_malformed_clock_witness :
  @fromisoformat micros_clock (start_time broken_clock) = None
  ∧ ∃ stats,
      @get_queue_stats micros_clock 20000000 20000000 broken_clock =
        (@clean_inactive_users micros_clock 15 20000000 broken_clock, stats)
      ∧ uptime_seconds stats = 0
      ∧ (avg_processing_time stats == 0)%Q.
Proof.
  split; [reflexivity|].
  apply (@get_queue_stats_malformed_clock micros_clock 20000000 20000000 broken_clock).
  reflexivity.
Defined.

(** ** Response retrieval *)

Section Retrieval.
Context `{DateTimeLib}.

Lemma first_response_None (user_id : string) (l : list Response) :
  first_response user_id l = None ↔ ∀ r, r ∈ l → resp_user_id r ≠ user_id.
Proof.
  induction l as [|r l IH]; simpl.
  - split; [|done]. intros _ r Hr. by apply not_elem_of_nil in Hr.
  - destruct (String.eqb (resp_user_id r) user_id) eqn:E.
    + apply String.eqb_eq in E. split; [done|].
      intros Hall. exfalso. apply (Hall r); [apply list_elem_of_here | done].
    + apply String.eqb_neq in E.
      destruct (first_response user_id l) as [[i r']|].
      * split; [done|]. intros Hall.
        assert (Some (i, r') = None) as Hn; [|done].
        apply IH. intros r0 Hr0. by apply Hall, list_elem_of_further.
      * split; [|done]. intros _ r0 Hr0.
        apply elem_of_cons in Hr0 as [->|Hr0]; [done|].
        by apply IH.
Qed.

(** The loop stops at the first response of the user. *)
Lemma first_response_split (user_id : string) (pre post : list Response)
    (r : Response) :
  (∀ r', r' ∈ pre → resp_user_id r' ≠ user_id) →
  resp_user_id r = user_id →
  first_response user_id (pre ++ r :: post) = Some (length pre, r).
Proof.
  intros Hpre Hr. induction pre as [|r0 pre IH]; simpl.
  - apply String.eqb_eq in Hr. by rewrite Hr.
  - assert (resp_user_id r0 ≠ user_id) as Hne
      by (apply Hpre, list_elem_of_here).
    apply String.eqb_neq in Hne. rewrite Hne, IH; [done|].
    intros r' Hr'. by apply Hpre, list_elem_of_further.
Qed.

Lemma first_response_Some (user_id : string) (l : list Response) (i : nat)
    (r : Response) :
  first_response user_id l = Some (i, r) →
  ∃ pre post, l = pre ++ r :: post ∧ length pre = i ∧
              resp_user_id r = user_id ∧
              ∀ r', r' ∈ pre → resp_user_id r' ≠ user_id.
Proof.
  revert i. induction l as [|r0 l IH]; intros i; simpl; [done|].
  destruct (String.eqb (resp_user_id r0) user_id) eqn:E.
  - intros [= <- <-]. apply String.eqb_eq in E.
    exists [], l. split; [done|]. split; [done|]. split; [done|].
    intros r' Hr'. by apply not_elem_of_nil in Hr'.
  - apply String.eqb_neq in E.
    destruct (first_response user_id l) as [[j r']|]; [|done].
    intros [= <- <-]. destruct (IH j eq_refl) as [pre [post [-> [Hlen [Hr Hpre]]]]].
    exists (r0 :: pre), post. split; [done|]. split; [by simpl; f_equal|].
    split; [done|]. intros r1 Hr1.
    apply elem_of_cons in Hr1 as [->|Hr1]; [done | by apply Hpre].
Qed.

(** A miss touches nothing. *)
Lemma get_response_miss (user_id : string) (qm : QueueManager) :
  (∀ r, r ∈ response_queue qm → resp_user_id r ≠ user_id) →
  get_response user_id qm = (qm, Returned None).
Proof.
  intros Hall. apply first_response_None in Hall.
  unfold get_response. by rewrite Hall.
Qed.

(** X22. A hit whose timestamp does not parse: the response is already
    popped when [fromisoformat] raises, so the call raises, the response is
    gone from [response_queue] and no transcript entry is written. *)
Lemma get_response_bad_timestamp (user_id : string) (qm : QueueManager)
    (pre post : list Response) (r : Response) :
  response_queue qm = pre ++ r :: post →
  (∀ r', r' ∈ pre → resp_user_id r' ≠ user_id) →
  resp_user_id r = user_id →
  fromisoformat (resp_timestamp r) = None →
  get_response user_id qm = (set_response_queue (pre ++ post) qm, Raised).
Proof.
  intros Hq Hpre Hr Hp. unfold get_response.
  rewrite Hq, (first_response_split user_id pre post r Hpre Hr), Hp.
  by rewrite delete_middle.
Qed.

(** C4, amended. On a miss [get_response] returns [None] and the state is
    unchanged. When some response has the user id, there is a first one;
    if its timestamp parses, exactly that response is removed from
    [response_queue], one entry (user, bot, time, user id) built from it is
    appended to [conversation_history], which is not truncated, nothing
    else changes, and the response is returned. *)
Theorem get_response_spec (user_id : string) (qm : QueueManager) :
  ((∀ r, r ∈ response_queue qm → resp_user_id r ≠ user_id) →
   get_response user_id qm = (qm, Returned None))
  ∧ ((∃ r, r ∈ response_queue qm ∧ resp_user_id r = user_id) →
     ∃ pre r post,
       response_queue qm = pre ++ r :: post ∧
       (∀ r', r' ∈ pre → resp_user_id r' ≠ user_id) ∧
       resp_user_id r = user_id)
  ∧ (∀ pre r post t,
       response_queue qm = pre ++ r :: post →
       (∀ r', r' ∈ pre → resp_user_id r' ≠ user_id) →
       resp_user_id r = user_id →
       fromisoformat (resp_timestamp r) = Some t →
       get_response user_id qm =
         ({| message_queue := message_queue qm;
             processing_queue := processing_queue qm;
             response_queue := pre ++ post;
             conversation_history :=
               conversation_history qm ++
                 [ {| ex_user := resp_original_message r;
                      ex_bot := resp_response r;
                      ex_time := strftime_HMS t;
                      ex_user_id := user_id |} ];
             active_users := active_users qm;
             start_time := start_time qm;
             queue_log := queue_log qm;
             last_process_time := last_process_time qm;
             total_messages := total_messages qm;
             processed_count := processed_count qm |},
          Returned (Some r))).
Proof.
  split; [apply get_response_miss|]. split.
  - intros [r [Hin Hr]].
    destruct (first_response user_id (response_queue qm)) as [[i r0]|] eqn:E.
    + apply first_response_Some in E as [pre [post [Hq [_ [Hr0 Hpre]]]]].
      by exists pre, r0, post.
    + exfalso. by apply (proj1 (first_response_None _ _) E r Hin).
  - intros pre r post t Hq Hpre Hr Hp. unfold get_response.
    rewrite Hq, (first_response_split user_id pre post r Hpre Hr). simpl.
    rewrite Hp. by rewrite delete_middle.
Qed.
End Retrieval.

(** C4, as stated, fails on the truncation: with 100 exchanges in the
    transcript and a response waiting for ["A"], [get_response] returns the
    response and leaves 101 exchanges, the oldest still first. *)
Lemma transcript_not_truncated :
  let result := @get_response micros_clock "A" full_transcript in
  length (conversation_history full_transcript) = 100%nat
  ∧ result.2 = Returned (head (response_queue full_transcript))
  ∧ length (conversation_history result.1) = 101%nat
  ∧ conversation_history result.1 ≠ last_n 100 (conversation_history result.1).
Proof.
  split; [reflexivity|]. split; [reflexivity|]. split; [reflexivity|].
  intros Heq. apply (f_equal length) in Heq. vm_compute in Heq. discriminate.
Qed.

(** Retrieval at work: a hit for user ["A"], a miss for user ["B"]. *)
Lemma get_response_spec_witness :
  let r := {| resp_id := 1; resp_response := "How to: Grades";
              resp_original_message := "grades"; resp_user_id := "A";
              resp_timestamp := "20" |} in
  response_queue full_transcript = [] ++ r :: []
  ∧ @fromisoformat micros_clock (resp_timestamp r) = Some 20
  ∧ (@get_response micros_clock "A" full_transcript).2 = Returned (Some r)
  ∧ (@get_response micros_clock "B" full_transcript) = (full_transcript, Returned None).
Proof.
  intros r.
  destruct (@get_response_spec micros_clock "A" full_transcript) as [_ [_ Hhit]].
  destruct (@get_response_spec micros_clock "B" full_transcript) as [Hmiss _].
  split; [reflexivity|]. split; [reflexivity|]. split.
  - rewrite (Hhit [] r [] 20 eq_refl); [reflexivity | | reflexivity | reflexivity].
    intros r' Hr'. by apply not_elem_of_nil in Hr'.
  - apply Hmiss. intros r' Hr'. apply list_elem_of_singleton in Hr' as ->. done.
Defined.

(** ** The snapshot store *)

Section Persistence.
Context `{DateTimeLib}.

Lemma from_dict_to_dict (t_init t_default : Z) (qm : QueueManager) :
  from_dict t_init t_default (to_dict qm) = truncated qm.
Proof. reflexivity. Qed.

Lemma load_queue_save_queue (t1 t2 t3 : Z) (qm : QueueManager) :
  load_queue t1 t2 t3 (save_queue qm) = clean_inactive_users 30 t3 (truncated qm).
Proof. reflexivity. Qed.

(** C3, amended. [from_dict] of [to_dict] gives the state back with
    [conversation_history] cut to its last 100 entries and [queue_log] to
    its last 50, and every other field as it was. [load_queue] after
    [save_queue] gives the same, except that [active_users] has also been
    swept with the timeout of 30 seconds: an entry survives the reload
    exactly when it is not inactive at the time of the load. *)
Theorem save_load_roundtrip (t1 t2 t3 : Z) (qm : QueueManager) :
  from_dict t1 t2 (to_dict qm) =
    {| message_queue := message_queue qm;
       processing_queue := processing_queue qm;
       response_queue := response_queue qm;
       conversation_history := last_n 100 (conversation_history qm);
       active_users := active_users qm;
       start_time := start_time qm;
       queue_log := last_n 50 (queue_log qm);
       last_process_time := last_process_time qm;
       total_messages := total_messages qm;
       processed_count := processed_count qm |}
  ∧ load_queue t1 t2 t3 (save_queue qm) =
    {| message_queue := message_queue qm;
       processing_queue := processing_queue qm;
       response_queue := response_queue qm;
       conversation_history := last_n 100 (conversation_history qm);
       active_users := active_users (clean_inactive_users 30 t3 qm);
       start_time := start_time qm;
       queue_log := last_n 50 (queue_log qm);
       last_process_time := last_process_time qm;
       total_messages := total_messages qm;
       processed_count := processed_count qm |}
  ∧ (∀ user_id,
       active_users (load_queue t1 t2 t3 (save_queue qm)) !! user_id =
         match active_users qm !! user_id with
         | Some last_active =>
             if is_inactive 30 t3 last_active then None else Some last_active
         | None => None
         end)
  ∧ last_n 100 (conversation_history qm) `suffix_of` conversation_history qm
  ∧ length (last_n 100 (conversation_history qm))
    = (length (conversation_history qm) `min` 100)%nat
  ∧ last_n 50 (queue_log qm) `suffix_of` queue_log qm
  ∧ length (last_n 50 (queue_log qm)) = (length (queue_log qm) `min` 50)%nat.
Proof.
  split; [reflexivity|]. split; [reflexivity|]. split.
  - intros user_id. rewrite load_queue_save_queue.
    by rewrite clean_inactive_users_lookup.
  - split; [apply last_n_suffix|]. split; [apply last_n_length|].
    split; [apply last_n_suffix | apply last_n_length].
Qed.
End Persistence.

(** C3, as stated, fails on [active_users]: a user last active at
    timestamp 0 is in the saved state, and is gone from the state loaded 31
    seconds later, although neither list needed truncation. *)
Lemma load_queue_sweeps_activity :
  let loaded := @load_queue micros_clock 0 0 31000000 (save_queue stale_user) in
  active_users stale_user !! "A" = Some "0"
  ∧ active_users loaded !! "A" = None
  ∧ active_users loaded ≠ active_users stale_user
  ∧ loaded ≠ truncated stale_user.
Proof.
  intros loaded.
  assert (active_users loaded !! "A" = None) as Hgone.
  { unfold loaded. rewrite load_queue_save_queue.
    rewrite (@clean_inactive_users_lookup micros_clock). reflexivity. }
  assert (active_users loaded ≠ active_users stale_user) as Hne.
  { intros Heq. rewrite Heq in Hgone. discriminate. }
  split; [reflexivity|]. split; [exact Hgone|]. split; [exact Hne|].
  intros Heq. apply Hne. by rewrite Heq.
Qed.

(** ** Sequences of operations *)

Section Traces.
Context `{DateTimeLib} `{StrLib}.
Variable kb : AIMSKnowledgeBase.

Lemma get_response_fields (user_id : string) (qm : QueueManager) :
  let qm' := (get_response user_id qm).1 in
  message_queue qm' = message_queue qm
  ∧ processing_queue qm' = processing_queue qm
  ∧ last_process_time qm' = last_process_time qm
  ∧ total_messages qm' = total_messages qm
  ∧ processed_count qm' = processed_count qm.
Proof.
  unfold get_response.
  destruct (first_response user_id (response_queue qm)) as [[i r]|]; [|done].
  by destruct (fromisoformat (resp_timestamp r)).
Qed.

(** What a step does to the counters and to the pending queue. *)
Lemma step_counters (qm : QueueManager) (op : Op) :
  total_messages qm ≤ total_messages (step kb qm op)
  ∧ processed_count qm ≤ processed_count (step kb qm op)
  ∧ (balanced qm → balanced (step kb qm op))
  ∧ (processing_queue qm = [] → processing_queue (step kb qm op) = []).
Proof.
  unfold balanced. destruct op as [tm ta tl message user_id | current_time now
    | user_id | now user_id | timeout now | ts tn | t1 t2 t3]; cbn [step].
  - split_and!; simpl; rewrite ?length_app; simpl; try lia; done.
  - destruct (process_next_message_cases kb current_time now qm)
      as [-> | [msg [rest [_ [Hq ->]]]]].
    + split_and!; simpl; try lia; done.
    + split_and!; simpl; rewrite ?Hq; simpl; try lia.
      by intros ->.
  - destruct (get_response_fields user_id qm) as [-> [-> [_ [-> ->]]]].
    split_and!; try lia; done.
  - split_and!; simpl; try lia; done.
  - split_and!; simpl; try lia; done.
  - split_and!; simpl; try lia; done.
  - split_and!; simpl; try lia; done.
Qed.

Lemma run_snoc (qm : QueueManager) (ops : list Op) (op : Op) :
  run kb qm (ops ++ [op]) = step kb (run kb qm ops) op.
Proof. unfold run. by rewrite foldl_app. Qed.

(** Every state reached from the fresh one is balanced and has nothing in
    flight. *)
Lemma reachable_settled (now : Z) (ops : list Op) :
  balanced (run kb (new_QueueManager now) ops)
  ∧ processing_queue (run kb (new_QueueManager now) ops) = [].
Proof.
  induction ops as [|op ops IH] using rev_ind.
  - split; reflexivity.
  - rewrite run_snoc. destruct IH as [Hb Hp].
    destruct (step_counters (run kb (new_QueueManager now) ops) op)
      as [_ [_ [Hb' Hp']]].
    split; [by apply Hb' | by apply Hp'].
Qed.

(** C9. In every state reached from the fresh empty state by submits,
    dispatches, retrievals, heartbeats and sweeps (and by statistics
    queries and save-and-reload round trips), [processed_count] is at most
    [total_messages]; and no operation, from any state, decreases either
    counter. *)
Theorem counters_invariant (now : Z) (ops : list Op) :
  processed_count (run kb (new_QueueManager now) ops)
    ≤ total_messages (run kb (new_QueueManager now) ops)
  ∧ ∀ (qm : QueueManager) (op : Op),
      total_messages qm ≤ total_messages (step kb qm op)
      ∧ processed_count qm ≤ processed_count (step kb qm op).
Proof.
  split.
  - destruct (reachable_settled now ops) as [Hb _]. unfold balanced in Hb. lia.
  - intros qm op. destruct (step_counters qm op) as [Ht [Hp _]]. done.
Qed.
Lemma step_keeps_last (qm : QueueManager) (op : Op) :
  (∀ current_time now, op ≠ Dispatch current_time now) →
  last_process_time (step kb qm op) = last_process_time qm.
Proof.
  intros Hop. destruct op as [tm ta tl message user_id | current_time now
    | user_id | now user_id | timeout now | ts tn | t1 t2 t3]; cbn [step];
    try reflexivity.
  - by destruct (Hop current_time now).
  - by destruct (get_response_fields user_id qm) as [_ [_ [-> _]]].
Qed.

Lemma dispatched_at_skip (qm : QueueManager) (op : Op) (ops : list Op) :
  (∀ current_time now, op ≠ Dispatch current_time now) →
  dispatched_at kb qm (op :: ops) = dispatched_at kb (step kb qm op) ops.
Proof.
  intros Hop. destruct op; try reflexivity. by destruct (Hop current_time now).
Qed.

(** X21. The rate limit over a whole run, for clock readings other than [0.0]:
    when no dispatch call is made at reading [0.0] and the last dispatch of
    the starting state is not stamped [0.0], any two successful dispatches
    are at least the minimum interval apart, and so is each of them from
    the last dispatch of the starting state. *)
Lemma dispatched_at_spaced (ops : list Op) (qm : QueueManager) :
  (∀ current_time now, Dispatch current_time now ∈ ops → ¬ (current_time == 0)%Q) →
  (∀ last, last_process_time qm = Some last → ¬ (last == 0)%Q) →
  StronglySorted spaced (dispatched_at kb qm ops)
  ∧ ∀ last, last_process_time qm = Some last →
            Forall (spaced last) (dispatched_at kb qm ops).
Proof.
  revert qm. induction ops as [|op ops IH]; intros qm Hops Hlast.
  - split; [constructor | intros; constructor].
  - assert (∀ c n, Dispatch c n ∈ ops → ¬ (c == 0)%Q) as Hops'.
    { intros c n Hin. apply (Hops c n). by apply list_elem_of_further. }
    destruct op as [tm ta tl message user_id | current_time now
      | user_id | now user_id | timeout now | ts tn | t1 t2 t3].
    2: {
      destruct (process_next_message_cases kb current_time now qm)
        as [Hsame | [msg [rest [Hr [Hq Hdone]]]]].
      - cbn [dispatched_at step]. rewrite Hsame. cbn [fst snd].
        by apply IH.
      - cbn [dispatched_at step]. rewrite Hdone. cbn [fst snd].
        assert (¬ (current_time == 0)%Q) as Hnz
          by (apply (Hops current_time now), list_elem_of_here).
        destruct (IH (after_dispatch kb current_time now msg rest qm) Hops')
          as [Hsorted Hafter].
        { intros last [= <-]. exact Hnz. }
        specialize (Hafter current_time eq_refl).
        split; [by constructor|].
        intros last Hl.
        assert (spaced last current_time) as Hgap.
        { unfold spaced.
          destruct (Qlt_le_dec (current_time - last) 3) as [Hlt|Hle]; [|done].
          exfalso. assert (rate_limited current_time qm = true) as Hlim.
          { apply rate_limited_true. exists last. split; [done|].
            split; [by apply Hlast | done]. }
          congruence. }
        constructor; [done|].
        eapply Forall_impl; [exact Hafter|].
        intros later Hlater. unfold spaced in *. lra. }
    all: rewrite dispatched_at_skip by done.
    all: match goal with
         | |- context [dispatched_at kb (step kb ?q ?op) _] =>
             rewrite <- (step_keeps_last q op) by done;
             apply IH; [done|];
             rewrite step_keeps_last by done; exact Hlast
         end.
Qed.
End Traces.

(** ** The rate limit on real clocks *)

Section RealClocks.
Context `{DateTimeLib} `{StrLib}.
Variable kb : AIMSKnowledgeBase.

(** On a clock that reads at least 3, a stamp inside the window is not
    [0.0], so the guard fires. *)
Lemma within_rate_limited (current_time : Q) (qm : QueueManager) :
  (3 <= current_time)%Q →
  within_min_interval current_time qm →
  rate_limited current_time qm = true.
Proof.
  intros Hclock [last [Hlast Hlt]]. apply rate_limited_true.
  exists last. split; [done|]. split; [|done]. intros Hz. lra.
Qed.

Lemma dispatched_at_spaced_real (ops : list Op) (qm : QueueManager) :
  (∀ current_time now, Dispatch current_time now ∈ ops → (3 <= current_time)%Q) →
  StronglySorted spaced (dispatched_at kb qm ops)
  ∧ ∀ last, last_process_time qm = Some last →
            Forall (spaced last) (dispatched_at kb qm ops).
Proof.
  revert qm. induction ops as [|op ops IH]; intros qm Hops.
  - split; [constructor | intros; constructor].
  - assert (∀ c n, Dispatch c n ∈ ops → (3 <= c)%Q) as Hops'.
    { intros c n Hin. apply (Hops c n). by apply list_elem_of_further. }
    destruct op as [tm ta tl message user_id | current_time now
      | user_id | now user_id | timeout now | ts tn | t1 t2 t3].
    2: {
      destruct (process_next_message_cases kb current_time now qm)
        as [Hsame | [msg [rest [Hr [Hq Hdone]]]]].
      - cbn [dispatched_at step]. rewrite Hsame. cbn [fst snd].
        by apply IH.
      - cbn [dispatched_at step]. rewrite Hdone. cbn [fst snd].
        assert (3 <= current_time)%Q as Hclock
          by (apply (Hops current_time now), list_elem_of_here).
        destruct (IH (after_dispatch kb current_time now msg rest qm) Hops')
          as [Hsorted Hafter].
        specialize (Hafter current_time eq_refl).
        split; [by constructor|].
        intros last Hl.
        assert (spaced last current_time) as Hgap.
        { unfold spaced.
          destruct (Qlt_le_dec (current_time - last) 3) as [Hlt|Hle]; [|done].
          exfalso. assert (rate_limited current_time qm = true) as Hlim.
          { apply within_rate_limited; [done|]. by exists last. }
          congruence. }
        constructor; [done|].
        eapply Forall_impl; [exact Hafter|].
        intros later Hlater. unfold spaced in *. lra. }
    all: rewrite dispatched_at_skip by done.
    all: match goal with
         | |- context [dispatched_at kb (step kb ?q ?op) _] =>
             rewrite <- (step_keeps_last kb q op) by done;
             by apply IH
         end.
Qed.

(** C1. For every clock reading of at least 3 (seconds after the epoch,
    which every reading of [time.time()] is): in every state whose
    [last_process_time] is set and less than the minimum interval of 3
    before the reading, [process_next_message] returns [False] and leaves
    the state unchanged. Consequently, in any sequence of operations from
    any state, the calls that return [True] are at least 3 apart from each
    other, the later after the earlier, and from the last dispatch of the
    starting state. *)
Theorem rate_limit_on_real_clocks :
  (∀ (current_time : Q) (now : Z) (qm : QueueManager),
     (3 <= current_time)%Q →
     within_min_interval current_time qm →
     process_next_message kb current_time now qm = (qm, false))
  ∧ (∀ (ops : list Op) (qm : QueueManager),
       (∀ current_time now,
          Dispatch current_time now ∈ ops → (3 <= current_time)%Q) →
       StronglySorted spaced (dispatched_at kb qm ops)
       ∧ ∀ last, last_process_time qm = Some last →
                 Forall (spaced last) (dispatched_at kb qm ops)).
Proof.
  split.
  - intros current_time now qm Hclock Hwithin.
    apply throttled_unchanged. by apply within_rate_limited.
  - apply dispatched_at_spaced_real.
Qed.
End RealClocks.

(** A dispatch at reading 1000, then a call one second later: throttled,
    state unchanged; over the whole run only the first call dispatches. *)
Lemma rate_limit_on_real_clocks_witness :
  let qm := @run micros_clock ascii_strings demo_kb
              (@new_QueueManager micros_clock 0)
              [ Submit 1 2 3 "How do I enroll?" "A"; Submit 4 5 6 "xyz unmatched" "B";
                Dispatch 1000 7 ] in
  (3 <= 1001)%Q
  ∧ within_min_interval 1001 qm
  ∧ message_queue qm ≠ []
  ∧ @process_next_message micros_clock ascii_strings demo_kb 1001 8 qm = (qm, false)
  ∧ @dispatched_at micros_clock ascii_strings demo_kb
      (@new_QueueManager micros_clock 0) two_clients = [1000%Q]
  ∧ StronglySorted spaced
      (@dispatched_at micros_clock ascii_strings demo_kb
         (@new_QueueManager micros_clock 0) two_clients).
Proof.
  intros qm.
  destruct (@rate_limit_on_real_clocks micros_clock ascii_strings demo_kb)
    as [Hcall Hrun].
  assert (3 <= 1001)%Q as Hclock by (vm_compute; discriminate).
  assert (within_min_interval 1001 qm) as Hwithin
    by (exists 1000%Q; split; [reflexivity | vm_compute; reflexivity]).
  split; [exact Hclock|]. split; [exact Hwithin|]. split; [discriminate|].
  split; [exact (Hcall 1001%Q 8 qm Hclock Hwithin)|]. split; [reflexivity|].
  apply Hrun. intros current_time now Hin. unfold two_clients in Hin.
  repeat (apply elem_of_cons in Hin as [Heq | Hin];
    [ first [ discriminate Heq
            | injection Heq as -> ->; vm_compute; discriminate ] |]).
  by apply not_elem_of_nil in Hin.
Defined.

(** ** The scenarios of the specification, run on the model *)

(** Two submits and two immediate dispatch calls: only the first call
    dispatches; the first client's answer is the enrollment procedure's and
    the second client's request is still pending, in first position. *)
Example scenario_two_dispatches :
  let qm := @run micros_clock ascii_strings demo_kb
              (@new_QueueManager micros_clock 0) two_clients in
  @dispatched_at micros_clock ascii_strings demo_kb
    (@new_QueueManager micros_clock 0) two_clients = [1000%Q]
  ∧ resp_response <$> response_queue qm = ["How to: Enrollment"]
  ∧ get_queue_position "B" qm = 1
  ∧ get_queue_position "A" qm = 0.
Proof. repeat split. Qed.

(** A request that matches no keyword is answered with the default help. *)
Example scenario_default_help :
  let qm := @add_user_message micros_clock 1 2 3 "xyz unmatched" "A"
              (@new_QueueManager micros_clock 0) in
  resp_response <$>
    response_queue (@process_next_message micros_clock ascii_strings demo_kb 1000 7 qm).1
  = [get_default_help demo_kb].
Proof. reflexivity. Qed.

(** A transcript of 150 entries comes back from a save and reload with its
    100 most recent entries, in their original order. *)
Example scenario_transcript_cap :
  let loaded := @load_queue micros_clock 0 0 0 (save_queue long_transcript) in
  length (conversation_history loaded) = 100%nat
  ∧ ex_time <$> conversation_history loaded
    = (λ i, @isoformat micros_clock (Z.of_nat i)) <$> seq 50 100.
Proof. split; vm_compute; reflexivity. Qed.

(** A sweep with the timeout of 15 seconds, 30 seconds after the start:
    the user seen 10 seconds ago stays, the user seen 30 seconds ago and
    the user with the malformed timestamp go. *)
Example scenario_sweep :
  active_users (@clean_inactive_users micros_clock 15 30000000 three_users)
  = {[ "B" := "20000000" ]}.
Proof.
  apply map_eq. intros user_id.
  rewrite (@clean_inactive_users_lookup micros_clock).
  destruct (decide (user_id = "B")) as [->|HB]; [reflexivity|].
  rewrite lookup_singleton_ne by done.
  destruct (decide (user_id = "A")) as [->|HA]; [reflexivity|].
  destruct (decide (user_id = "C")) as [->|HC]; [reflexivity|].
  unfold three_users. simpl.
  by rewrite !lookup_insert_ne, lookup_singleton_ne by done.
Qed.

(** A heartbeat, then a statistics query 16 seconds later: the user is no
    longer counted as active. *)
Example scenario_heartbeat_expires :
  let qm := @update_user_activity micros_clock 1000000 "A"
              (@new_QueueManager micros_clock 0) in
  stat_active_users (@get_queue_stats micros_clock 2000000 2000000 qm).2 = 1
  ∧ stat_active_users (@get_queue_stats micros_clock 17000000 17000000 qm).2 = 0.
Proof. split; vm_compute; reflexivity. Qed.

(** * Further properties of the code *)

(** ** Queue positions *)

Lemma position_loop_cases (user_id : string) (idx : Z) (l : list Message) :
  ((∀ m, m ∈ l → msg_user_id m ≠ user_id) ∧ position_loop user_id idx l = 0)
  ∨ ∃ pre m post,
      l = pre ++ m :: post ∧
      (∀ m', m' ∈ pre → msg_user_id m' ≠ user_id) ∧
      msg_user_id m = user_id ∧
      position_loop user_id idx l = idx + Z.of_nat (length pre) + 1.
Proof.
  revert idx. induction l as [|m0 l IH]; intros idx; simpl.
  - left. split; [|done]. intros m Hm. by apply not_elem_of_nil in Hm.
  - destruct (String.eqb (msg_user_id m0) user_id) eqn:E.
    + apply String.eqb_eq in E. right. exists [], m0, l.
      split; [done|]. split; [|split; [done | simpl; lia]].
      intros m' Hm'. by apply not_elem_of_nil in Hm'.
    + apply String.eqb_neq in E.
      destruct (IH (idx + 1)) as [[Hnone ->] | [pre [m [post [-> [Hpre [Hm ->]]]]]]].
      * left. split; [|done]. intros m Hm.
        apply elem_of_cons in Hm as [->|Hm]; [done | by apply Hnone].
      * right. exists (m0 :: pre), m, post. split; [done|].
        split; [|split; [done | simpl; lia]].
        intros m' Hm'. apply elem_of_cons in Hm' as [->|Hm']; [done | by apply Hpre].
Qed.

Lemma position_loop_miss (user_id : string) (idx : Z) (l : list Message) :
  (∀ m, m ∈ l → msg_user_id m ≠ user_id) → position_loop user_id idx l = 0.
Proof.
  intros Hnone.
  destruct (position_loop_cases user_id idx l)
    as [[_ ->] | [pre [m [post [-> [_ [Hm _]]]]]]]; [done|].
  exfalso. apply (Hnone m); [|done]. apply elem_of_app. right. apply list_elem_of_here.
Qed.

Lemma position_loop_hit (user_id : string) (idx : Z) (pre post : list Message)
    (m : Message) :
  (∀ m', m' ∈ pre → msg_user_id m' ≠ user_id) →
  msg_user_id m = user_id →
  position_loop user_id idx (pre ++ m :: post) = idx + Z.of_nat (length pre) + 1.
Proof.
  intros Hpre Hm. revert idx. induction pre as [|m0 pre IH]; intros idx; simpl.
  - apply String.eqb_eq in Hm. rewrite Hm. lia.
  - assert (msg_user_id m0 ≠ user_id) as Hne by (apply Hpre, list_elem_of_here).
    apply String.eqb_neq in Hne. rewrite Hne, IH; [lia|].
    intros m' Hm'. by apply Hpre, list_elem_of_further.
Qed.

(** The loop started at another index gives the same rank, shifted. *)
Lemma position_loop_shift (user_id : string) (idx : Z) (l : list Message) :
  position_loop user_id idx l =
    if position_loop user_id 0 l =? 0 then 0 else idx + position_loop user_id 0 l.
Proof.
  destruct (position_loop_cases user_id 0 l)
    as [[Hnone ->] | [pre [m [post [-> [Hpre [Hm ->]]]]]]].
  - by rewrite position_loop_miss.
  - rewrite position_loop_hit by done.
    destruct (0 + Z.of_nat (length pre) + 1 =? 0) eqn:E; lia.
Qed.

(** X1. [get_queue_position] is 0 exactly when the user has no pending
    request; otherwise it is one more than the number of requests ahead of
    the user's first pending request, so it lies between 1 and the length
    of the queue. *)
Theorem get_queue_position_spec (user_id : string) (qm : QueueManager) :
  (get_queue_position user_id qm = 0 ↔
   ∀ m, m ∈ message_queue qm → msg_user_id m ≠ user_id)
  ∧ (∀ pre m post,
       message_queue qm = pre ++ m :: post →
       (∀ m', m' ∈ pre → msg_user_id m' ≠ user_id) →
       msg_user_id m = user_id →
       get_queue_position user_id qm = Z.of_nat (length pre) + 1)
  ∧ 0 ≤ get_queue_position user_id qm ≤ Z.of_nat (length (message_queue qm)).
Proof.
  unfold get_queue_position. split; [|split].
  - split.
    + intros Hz.
      destruct (position_loop_cases user_id 0 (message_queue qm))
        as [[Hnone _] | [pre [m [post [_ [_ [_ Hp]]]]]]]; [done | lia].
    + apply position_loop_miss.
  - intros pre m post -> Hpre Hm. rewrite position_loop_hit by done. lia.
  - destruct (position_loop_cases user_id 0 (message_queue qm))
      as [[_ ->] | [pre [m [post [-> [_ [_ ->]]]]]]]; [lia|].
    rewrite length_app. simpl. lia.
Qed.

Section Positions.
Context `{DateTimeLib} `{StrLib}.
Variable kb : AIMSKnowledgeBase.

(** X2. A successful dispatch moves every user waiting behind the head of
    the queue up by one place. *)
Theorem dispatch_advances_positions (current_time : Q) (now : Z)
    (qm : QueueManager) (user_id : string) :
  (process_next_message kb current_time now qm).2 = true →
  2 ≤ get_queue_position user_id qm →
  get_queue_position user_id (process_next_message kb current_time now qm).1
    = get_queue_position user_id qm - 1.
Proof.
  intros Hok Hpos.
  destruct (process_next_message_cases kb current_time now qm)
    as [Hsame | [msg [rest [_ [Hq Hdone]]]]].
  - rewrite Hsame in Hok. done.
  - rewrite Hdone. unfold get_queue_position in *. simpl.
    rewrite Hq in *. simpl in Hpos |- *.
    destruct (String.eqb (msg_user_id msg) user_id); [lia|].
    rewrite (position_loop_shift user_id (0 + 1) rest) in Hpos |- *.
    destruct (position_loop user_id 0 rest =? 0); lia.
Qed.

(** X3. After [add_user_message] the submitter, if they had nothing
    pending, stands at the end of the queue; the position of every user who
    already had a pending request, and of every other user, is unchanged. *)
Theorem add_user_message_position (t_msg t_active t_log : Z)
    (message user_id other : string) (qm : QueueManager) :
  get_queue_position other
    (add_user_message t_msg t_active t_log message user_id qm)
  = if (get_queue_position other qm =? 0) && String.eqb other user_id
    then Z.of_nat (length (message_queue qm)) + 1
    else get_queue_position other qm.
Proof.
  unfold get_queue_position. simpl.
  set (m := {| msg_id := total_messages qm + 1; msg_message := message;
               msg_timestamp := isoformat t_msg; msg_user_id := user_id |}).
  destruct (position_loop_cases other 0 (message_queue qm))
    as [[Hnone Hz] | [pre [m0 [post [Hq [Hpre [Hm Hp]]]]]]].
  - rewrite Hz. simpl. destruct (String.eqb other user_id) eqn:E.
    + apply String.eqb_eq in E. subst other.
      rewrite (position_loop_hit user_id 0 (message_queue qm) [] m) by done. lia.
    + apply String.eqb_neq in E. apply position_loop_miss.
      intros m' Hm'. apply elem_of_app in Hm' as [Hm'|Hm']; [by apply Hnone|].
      apply list_elem_of_singleton in Hm' as ->. simpl. congruence.
  - rewrite Hp. replace (0 + Z.of_nat (length pre) + 1 =? 0) with false by lia.
    simpl. rewrite Hq, <- app_assoc. simpl.
    by rewrite (position_loop_hit other 0 pre (post ++ [m]) m0).
Qed.
End Positions.

(** ** Dispatch outcomes and request ids *)

Lemma StronglySorted_lt_NoDup (l : list Z) : StronglySorted Z.lt l → NoDup l.
Proof.
  induction 1 as [|x l Hl IH Hx]; [constructor|].
  constructor; [|done]. intros Hin.
  rewrite Forall_forall in Hx. specialize (Hx x Hin). lia.
Qed.

Section Outcomes.
Context `{DateTimeLib} `{StrLib}.
Variable kb : AIMSKnowledgeBase.

(** X4. [process_next_message] returns [True] exactly when the rate-limit
    guard does not fire and a request is pending. When it returns [False]
    the state is unchanged, and if a request was pending then the call was
    inside the minimum interval: on a non-empty queue, [False] means
    throttled. *)
Theorem process_next_message_outcome (current_time : Q) (now : Z)
    (qm : QueueManager) :
  ((process_next_message kb current_time now qm).2 = true ↔
   rate_limited current_time qm = false ∧ message_queue qm ≠ [])
  ∧ ((process_next_message kb current_time now qm).2 = false →
     (process_next_message kb current_time now qm).1 = qm)
  ∧ ((process_next_message kb current_time now qm).2 = false →
     message_queue qm ≠ [] → within_min_interval current_time qm).
Proof.
  destruct (process_next_message_cases kb current_time now qm)
    as [Hsame | [msg [rest [Hr [Hq Hdone]]]]].
  - rewrite Hsame. simpl. split; [|split; [done|]].
    + split; [done|]. intros [Hr Hq].
      destruct (message_queue qm) as [|msg rest] eqn:E; [done|].
      rewrite (dispatch_effect kb current_time now qm msg rest Hr E) in Hsame.
      by injection Hsame.
    + intros _ Hq. apply rate_limited_within.
      destruct (rate_limited current_time qm) eqn:Hr; [done|].
      destruct (message_queue qm) as [|msg rest] eqn:E; [done|].
      rewrite (dispatch_effect kb current_time now qm msg rest Hr E) in Hsame.
      by injection Hsame.
  - rewrite Hdone. simpl. split; [|split; done].
    split; [|done]. intros _. split; [done|]. by rewrite Hq.
Qed.

Lemma get_response_queue (user_id : string) (qm : QueueManager) :
  response_queue (get_response user_id qm).1 = response_queue qm
  ∨ ∃ pre r post,
      response_queue qm = pre ++ r :: post ∧
      (∀ r', r' ∈ pre → resp_user_id r' ≠ user_id) ∧
      resp_user_id r = user_id ∧
      response_queue (get_response user_id qm).1 = pre ++ post.
Proof.
  unfold get_response.
  destruct (first_response user_id (response_queue qm)) as [[i r]|] eqn:E;
    [|by left].
  apply first_response_Some in E as [pre [post [Hq [<- [Hr Hpre]]]]].
  right. exists pre, r, post. split; [done|]. split; [done|]. split; [done|].
  rewrite Hq. destruct (fromisoformat (resp_timestamp r)); simpl;
    by rewrite delete_middle.
Qed.

(** Every step keeps the ids in order. *)
Lemma step_ids_in_order (qm : QueueManager) (op : Op) :
  balanced qm → 0 ≤ processed_count qm → ids_in_order qm →
  ids_in_order (step kb qm op).
Proof.
  unfold balanced, ids_in_order. intros Hb Hp [Hids [Hsorted Hbound]].
  destruct op as [tm ta tl message user_id | current_time now
    | user_id | now user_id | timeout now | ts tn | t1 t2 t3]; cbn [step];
    try done.
  - simpl. split; [|done].
    rewrite fmap_app, length_app, Nat.add_1_r, seqZ_S, Hids. simpl.
    do 2 f_equal. lia.
  - destruct (process_next_message_cases kb current_time now qm)
      as [-> | [msg [rest [_ [Hq ->]]]]]; [done|]. simpl.
    rewrite Hq in Hids. cbn [fmap list_fmap length] in Hids.
    rewrite seqZ_cons in Hids by lia. injection Hids as Hhead Htail.
    split; [|split].
    + rewrite Htail. f_equal; lia.
    + rewrite fmap_app. apply StronglySorted_app. split; [|split; [done|]].
      * intros a b Ha Hb'. apply list_elem_of_fmap in Ha as [r [-> Hr]].
        apply list_elem_of_singleton in Hb' as ->. simpl.
        rewrite Forall_forall in Hbound. specialize (Hbound r Hr). lia.
      * simpl. repeat constructor.
    + apply Forall_app. split.
      * eapply Forall_impl; [exact Hbound|]. intros r Hr. simpl in Hr. lia.
      * apply Forall_singleton. simpl. lia.
  - destruct (get_response_fields user_id qm) as [-> [_ [_ [_ ->]]]].
    split; [done|].
    destruct (get_response_queue user_id qm)
      as [-> | [pre [r [post [Hq [_ [_ ->]]]]]]]; [done|].
    rewrite Hq in Hsorted, Hbound. rewrite fmap_app in *.
    cbn [fmap list_fmap] in Hsorted.
    apply StronglySorted_app in Hsorted as [Hcross [Hpre Hpost]].
    apply StronglySorted_cons in Hpost as [_ Hpost].
    apply Forall_app in Hbound as [Hb1 Hb2].
    apply Forall_cons in Hb2 as [_ Hb2].
    split.
    + apply StronglySorted_app. split; [|done].
      intros a b Ha Hb'. apply Hcross; [done|]. by apply list_elem_of_further.
    + by apply Forall_app.
Qed.

Lemma reachable_ids_in_order (now : Z) (ops : list Op) :
  0 ≤ processed_count (run kb (new_QueueManager now) ops)
  ∧ ids_in_order (run kb (new_QueueManager now) ops).
Proof.
  induction ops as [|op ops IH] using rev_ind.
  - split; [done|]. split; [done|]. split; constructor.
  - rewrite run_snoc. destruct IH as [Hp Hids].
    destruct (reachable_settled kb now ops) as [Hb _].
    destruct (step_counters kb (run kb (new_QueueManager now) ops) op)
      as [_ [Hmono _]].
    split; [lia | by apply step_ids_in_order].
Qed.

(** X5. In every state reached from the fresh one, each submitted request
    is either processed or pending ([total_messages] is [processed_count]
    plus the length of [message_queue]); the pending requests carry the
    consecutive ids after [processed_count], in arrival order; the waiting
    responses carry increasing ids, all smaller than any pending id; so no
    id occurs twice among the waiting responses and the pending requests,
    and nothing is left in [processing_queue]. *)
Theorem reachable_ids (now : Z) (ops : list Op) :
  let qm := run kb (new_QueueManager now) ops in
  total_messages qm = processed_count qm + Z.of_nat (length (message_queue qm))
  ∧ msg_id <$> message_queue qm
    = seqZ (processed_count qm + 1) (Z.of_nat (length (message_queue qm)))
  ∧ StronglySorted Z.lt (resp_id <$> response_queue qm)
  ∧ (∀ r m, r ∈ response_queue qm → m ∈ message_queue qm → resp_id r < msg_id m)
  ∧ NoDup ((resp_id <$> response_queue qm) ++ (msg_id <$> message_queue qm))
  ∧ processing_queue qm = [].
Proof.
  intros qm.
  destruct (reachable_settled kb now ops) as [Hb Hflight].
  destruct (reachable_ids_in_order now ops) as [Hp [Hids [Hsorted Hbound]]].
  fold qm in Hb, Hflight, Hp, Hids, Hsorted, Hbound.
  assert (∀ r m, r ∈ response_queue qm → m ∈ message_queue qm →
                 resp_id r < msg_id m) as Hcross.
  { intros r m Hr Hm. rewrite Forall_forall in Hbound. specialize (Hbound r Hr).
    assert (msg_id m ∈ msg_id <$> message_queue qm) as Hin
      by (apply list_elem_of_fmap; by exists m).
    rewrite Hids in Hin. apply elem_of_seqZ in Hin. lia. }
  split; [exact Hb|]. split; [exact Hids|]. split; [exact Hsorted|].
  split; [exact Hcross|]. split; [|exact Hflight].
  apply NoDup_app. split; [by apply StronglySorted_lt_NoDup|]. split.
  - intros x Hx Hx'. apply list_elem_of_fmap in Hx as [r [-> Hr]].
    apply list_elem_of_fmap in Hx' as [m [Heq Hm]].
    specialize (Hcross r m Hr Hm). lia.
  - rewrite Hids. apply NoDup_seqZ.
Qed.
End Outcomes.

(** ** Retrieval, end to end *)

Lemma filter_user_none (user_id : string) (l : list Response) :
  (∀ r, r ∈ l → resp_user_id r ≠ user_id) →
  filter (λ r, resp_user_id r = user_id) l = [].
Proof.
  induction l as [|r l IH]; intros Hnone; [done|].
  rewrite filter_cons_False by (apply Hnone, list_elem_of_here).
  apply IH. intros r' Hr'. by apply Hnone, list_elem_of_further.
Qed.

Section RetrievalFlow.
Context `{DateTimeLib} `{StrLib}.
Variable kb : AIMSKnowledgeBase.

(** A hit whose timestamp parses. *)
Lemma get_response_hit (user_id : string) (qm : QueueManager)
    (pre post : list Response) (r : Response) (t : Z) :
  response_queue qm = pre ++ r :: post →
  (∀ r', r' ∈ pre → resp_user_id r' ≠ user_id) →
  resp_user_id r = user_id →
  fromisoformat (resp_timestamp r) = Some t →
  get_response user_id qm =
    (set_conversation_history
       (conversation_history qm ++
          [ {| ex_user := resp_original_message r;
               ex_bot := resp_response r;
               ex_time := strftime_HMS t;
               ex_user_id := user_id |} ])
       (set_response_queue (pre ++ post) qm),
     Returned (Some r)).
Proof.
  intros Hq Hpre Hr Hp. unfold get_response.
  rewrite Hq, (first_response_split user_id pre post r Hpre Hr), Hp.
  by rewrite delete_middle.
Qed.

(** X6. [get_response] serves each user in the order the responses were
    produced and leaves the responses of every other user in place: the
    response it returns is the first of the user's waiting responses and
    the rest of them stay in order; [None] is returned only when the user
    has none; and the waiting responses of any other user are the same
    before and after, whatever the outcome. *)
Theorem get_response_per_user (user_id : string) (qm : QueueManager) :
  let result := get_response user_id qm in
  (∀ other, other ≠ user_id →
     filter (λ r, resp_user_id r = other) (response_queue result.1)
     = filter (λ r, resp_user_id r = other) (response_queue qm))
  ∧ (∀ r, result.2 = Returned (Some r) →
       filter (λ r, resp_user_id r = user_id) (response_queue qm)
       = r :: filter (λ r, resp_user_id r = user_id) (response_queue result.1))
  ∧ (result.2 = Returned None →
       filter (λ r, resp_user_id r = user_id) (response_queue qm) = []).
Proof.
  intros result. unfold result, get_response.
  destruct (first_response user_id (response_queue qm)) as [[i r]|] eqn:E.
  - apply first_response_Some in E as [pre [post [Hq [<- [Hr Hpre]]]]].
    assert (∀ qm', response_queue qm' = delete (length pre) (response_queue qm) →
              (∀ other, other ≠ user_id →
                 filter (λ r, resp_user_id r = other) (response_queue qm')
                 = filter (λ r, resp_user_id r = other) (response_queue qm))
              ∧ filter (λ r, resp_user_id r = user_id) (response_queue qm)
                = r :: filter (λ r, resp_user_id r = user_id) (response_queue qm'))
      as Hpop.
    { intros qm' ->. rewrite Hq, delete_middle. split.
      - intros other Hne. rewrite !filter_app.
        rewrite filter_cons_False by congruence. done.
      - rewrite !filter_app, filter_cons_True by done.
        by rewrite (filter_user_none user_id pre Hpre). }
    destruct (fromisoformat (resp_timestamp r)); simpl.
    + destruct (Hpop (set_response_queue
                        (delete (length pre) (response_queue qm)) qm) eq_refl)
        as [Hothers Hmine].
      split; [exact Hothers|]. split; [|done]. by intros r' [= <-].
    + destruct (Hpop (set_response_queue
                        (delete (length pre) (response_queue qm)) qm) eq_refl)
        as [Hothers Hmine].
      split; [exact Hothers|]. split; done.
  - simpl. split; [done|]. split; [done|]. intros _.
    apply filter_user_none. by apply first_response_None.
Qed.

(** X7. Submit, dispatch, retrieve. On a state with no pending request
    and no waiting response of the user, when the call is not rate-limited
    and the timestamp written for the response reads back: the dispatch
    succeeds, the user's retrieval returns the response to exactly that
    request (same id, same text, the resolver's answer), the queues are as
    before, one exchange is added to the transcript and both counters have
    grown by one. *)
Theorem submit_dispatch_retrieve (t_msg t_active t_log now : Z) (current_time : Q)
    (message user_id : string) (qm : QueueManager) :
  message_queue qm = [] →
  rate_limited current_time qm = false →
  (∀ r, r ∈ response_queue qm → resp_user_id r ≠ user_id) →
  fromisoformat (isoformat now) = Some now →
  let answer :=
    match search_procedure kb message with
    | Some procedure => response procedure
    | None => get_default_help kb
    end in
  let q1 := add_user_message t_msg t_active t_log message user_id qm in
  let dispatched := process_next_message kb current_time now q1 in
  let retrieved := get_response user_id dispatched.1 in
  dispatched.2 = true
  ∧ retrieved.2 =
      Returned (Some {| resp_id := total_messages qm + 1;
                        resp_response := answer;
                        resp_original_message := message;
                        resp_user_id := user_id;
                        resp_timestamp := isoformat now |})
  ∧ message_queue retrieved.1 = []
  ∧ response_queue retrieved.1 = response_queue qm
  ∧ conversation_history retrieved.1 =
      conversation_history qm ++
        [ {| ex_user := message; ex_bot := answer;
             ex_time := strftime_HMS now; ex_user_id := user_id |} ]
  ∧ total_messages retrieved.1 = total_messages qm + 1
  ∧ processed_count retrieved.1 = processed_count qm + 1.
Proof.
  intros Hq Hr Hnone Hstamp answer q1 dispatched retrieved.
  set (m := {| msg_id := total_messages qm + 1; msg_message := message;
               msg_timestamp := isoformat t_msg; msg_user_id := user_id |}).
  assert (dispatched = (after_dispatch kb current_time now m [] q1, true)) as Hd.
  { unfold dispatched. apply dispatch_effect; [exact Hr|].
    unfold q1. simpl. by rewrite Hq. }
  unfold retrieved. rewrite Hd. cbn [fst snd].
  rewrite (get_response_hit user_id _ (response_queue qm) []
             (response_for kb now m) now);
    [| simpl; by rewrite ?app_nil_r | done | done | exact Hstamp].
  simpl. rewrite app_nil_r. done.
Qed.

(** X8. Retrieval followed by a save and a reload: the reloaded transcript
    is the last 100 entries of the old transcript with the new exchange
    added, so it ends with the new exchange and holds at most 100 entries;
    a transcript that was full loses its oldest entries, never the newest. *)
Theorem retrieve_then_persist (t1 t2 t3 : Z) (user_id : string)
    (qm : QueueManager) (pre post : list Response) (r : Response) (t : Z) :
  response_queue qm = pre ++ r :: post →
  (∀ r', r' ∈ pre → resp_user_id r' ≠ user_id) →
  resp_user_id r = user_id →
  fromisoformat (resp_timestamp r) = Some t →
  let exchange :=
    {| ex_user := resp_original_message r; ex_bot := resp_response r;
       ex_time := strftime_HMS t; ex_user_id := user_id |} in
  let reloaded :=
    load_queue t1 t2 t3 (save_queue (get_response user_id qm).1) in
  conversation_history reloaded
    = last_n 100 (conversation_history qm ++ [exchange])
  ∧ conversation_history reloaded
    = drop (length (conversation_history qm) - 99) (conversation_history qm)
        ++ [exchange]
  ∧ last (conversation_history reloaded) = Some exchange
  ∧ (length (conversation_history reloaded) ≤ 100)%nat
  ∧ response_queue reloaded = pre ++ post.
Proof.
  intros Hq Hpre Hr Hp exchange reloaded. unfold reloaded.
  rewrite (get_response_hit user_id qm pre post r t Hq Hpre Hr Hp).
  cbn [fst]. rewrite load_queue_save_queue. simpl.
  fold exchange.
  assert (last_n 100 (conversation_history qm ++ [exchange])
          = drop (length (conversation_history qm) - 99) (conversation_history qm)
              ++ [exchange]) as Hcut.
  { unfold last_n. rewrite length_app. simpl.
    replace (length (conversation_history qm) + 1 - 100)%nat
      with (length (conversation_history qm) - 99)%nat by lia.
    apply drop_app_le. lia. }
  split; [done|]. split; [exact Hcut|]. split; [|split; [|done]].
  - rewrite Hcut. apply last_snoc.
  - rewrite last_n_length. lia.
Qed.
End RetrievalFlow.

(** ** Activity, sweeps and statistics *)

Lemma total_seconds_mono (a b : Z) : a ≤ b → (total_seconds a <= total_seconds b)%Q.
Proof. intros Hle. unfold total_seconds, Qle. simpl. lia. Qed.

Section Activity.
Context `{DateTimeLib}.

(** X9. A heartbeat against a later sweep. When the timestamp written by
    [update_user_activity] reads back, a sweep made while the heartbeat is
    at most [timeout_seconds] old keeps the user, with that timestamp, and
    a sweep made when it is older removes the user. *)
Theorem heartbeat_then_sweep (now current_time : Z) (timeout_seconds : Q)
    (user_id : string) (qm : QueueManager) :
  fromisoformat (isoformat now) = Some now →
  let swept :=
    clean_inactive_users timeout_seconds current_time
      (update_user_activity now user_id qm) in
  ((total_seconds (current_time - now) <= timeout_seconds)%Q →
   active_users swept !! user_id = Some (isoformat now))
  ∧ ((timeout_seconds < total_seconds (current_time - now))%Q →
     active_users swept !! user_id = None).
Proof.
  intros Hstamp swept. unfold swept.
  rewrite clean_inactive_users_lookup. simpl. rewrite lookup_insert_eq.
  unfold is_inactive. rewrite Hstamp, isoformat_naive. split.
  - intros Hle. apply Qltb_false in Hle. by rewrite Hle.
  - intros Hlt. apply Qltb_true in Hlt. by rewrite Hlt.
Qed.

(** X10. Sweeps compose. An earlier, more lenient sweep is made redundant
    by a later, stricter one: sweeping with [timeout2] at [time2] after
    sweeping with a timeout [timeout1 >= timeout2] at a time
    [time1 <= time2] gives the same state as the second sweep alone. So
    the sweep of [get_queue_stats] (15 seconds) subsumes the sweep
    [load_queue] made before it (30 seconds), and a sweep repeated at the
    same time with the same timeout changes nothing more. *)
Theorem sweeps_compose (timeout1 timeout2 : Q) (time1 time2 : Z)
    (qm : QueueManager) :
  (timeout2 <= timeout1)%Q → time1 ≤ time2 →
  clean_inactive_users timeout2 time2
    (clean_inactive_users timeout1 time1 qm)
  = clean_inactive_users timeout2 time2 qm.
Proof.
  intros Htimeout Htime.
  assert (active_users (clean_inactive_users timeout2 time2
                          (clean_inactive_users timeout1 time1 qm))
          = active_users (clean_inactive_users timeout2 time2 qm)) as Hmap.
  { apply map_eq. intros user_id. rewrite !clean_inactive_users_lookup.
    destruct (active_users qm !! user_id) as [ts|]; [|done].
    destruct (is_inactive timeout1 time1 ts) eqn:E1; [|done].
    destruct (is_inactive timeout2 time2 ts) eqn:E2; [done|].
    exfalso. unfold is_inactive in E1, E2.
    destruct (fromisoformat ts) as [t|]; [|done].
    destruct (offset_aware ts); [done|].
    apply Qltb_true in E1. apply Qltb_false in E2.
    pose proof (total_seconds_mono (time1 - t) (time2 - t)) as Hm.
    assert (time1 - t ≤ time2 - t) as Hle by lia.
    specialize (Hm Hle). lra. }
  transitivity
    (set_active_users
       (active_users (clean_inactive_users timeout2 time2
                        (clean_inactive_users timeout1 time1 qm))) qm);
    [reflexivity|].
  rewrite Hmap. reflexivity.
Qed.

(** X11. The [uptime_seconds] of the statistics counts whole seconds. When
    [start_time] parses to a naive time [start] that is not after the
    clock reading, and less than 2^34 seconds have passed (the range in
    which the float of [total_seconds] has the whole part of the exact
    quotient), [uptime_seconds] is the number of whole seconds in the
    elapsed microseconds [t_now - start]: it is not negative, a million
    times it is at most the elapsed microseconds, and a million times its
    successor is more. *)
Theorem uptime_seconds_bounds (t_sweep t_now start : Z) (qm : QueueManager) :
  fromisoformat (start_time qm) = Some start →
  offset_aware (start_time qm) = false →
  start ≤ t_now →
  t_now - start < 2 ^ 34 * 1000000 →
  let stats := (get_queue_stats t_sweep t_now qm).2 in
  0 ≤ uptime_seconds stats
  ∧ 1000000 * uptime_seconds stats ≤ t_now - start
  ∧ t_now - start < 1000000 * (uptime_seconds stats + 1).
Proof.
  intros Hstart Hnaive Hle _ stats. unfold stats, get_queue_stats. simpl.
  unfold uptime_of. simpl. rewrite Hstart, Hnaive.
  unfold int_of_float, total_seconds. simpl.
  rewrite Z.quot_div_nonneg by lia.
  pose proof (Z.mul_div_le (t_now - start) 1000000 ltac:(lia)) as Hlow.
  pose proof (Z.mul_succ_div_gt (t_now - start) 1000000 ltac:(lia)) as Hhigh.
  split; [apply Z.div_pos; lia|]. split; lia.
Qed.
End Activity.

(** ** Persistence, continued *)

Lemma last_n_idem {A} (n : nat) (l : list A) : last_n n (last_n n l) = last_n n l.
Proof. apply last_n_short. rewrite last_n_length. lia. Qed.

Section PersistedSubmission.
Context `{DateTimeLib} `{StripLib}.

(** X12. Saving what was just loaded changes the snapshot only by the
    sweep of the load: the two histories, already cut to their caps, are
    not cut further, and without the sweep ([from_dict] alone) the
    snapshot written back is the snapshot read. *)
Theorem resave_snapshot (t1 t2 t3 : Z) (qm : QueueManager) :
  to_dict (from_dict t1 t2 (to_dict qm)) = to_dict qm
  ∧ save_queue (load_queue t1 t2 t3 (save_queue qm))
    = save_queue (clean_inactive_users 30 t3 qm).
Proof.
  rewrite load_queue_save_queue, from_dict_to_dict.
  unfold save_queue, to_dict, truncated. simpl. rewrite !last_n_idem. done.
Qed.

Lemma load_queue_file_queue (t1 t2 t3 : Z) (file : QueueFile) :
  message_queue (load_queue t1 t2 t3 file) = (file_queue file).1
  ∧ total_messages (load_queue t1 t2 t3 file) = (file_queue file).2.
Proof. by destruct file. Qed.

Lemma file_queue_process_user_question (file : QueueFile) (q : Question) :
  file_queue (process_user_question file q) =
    if is_blank (q_text q) then file_queue file
    else ((file_queue file).1 ++
            [ {| msg_id := (file_queue file).2 + 1;
                 msg_message := q_text q;
                 msg_timestamp := isoformat (q_t_msg q);
                 msg_user_id := q_user_id q |} ],
          (file_queue file).2 + 1).
Proof.
  unfold process_user_question. destruct (is_blank (q_text q)); [done|].
  destruct (load_queue_file_queue (q_load1 q) (q_load2 q) (q_load3 q) file)
    as [Hq Ht].
  simpl. by rewrite Hq, Ht.
Qed.

Lemma file_queue_questions (qs : list Question) (file : QueueFile) :
  let accepted := List.filter (λ q, negb (is_blank (q_text q))) qs in
  file_queue (foldl process_user_question file qs) =
    ((file_queue file).1 ++
       imap (λ i q, {| msg_id := (file_queue file).2 + Z.of_nat i + 1;
                       msg_message := q_text q;
                       msg_timestamp := isoformat (q_t_msg q);
                       msg_user_id := q_user_id q |}) accepted,
     (file_queue file).2 + Z.of_nat (length accepted)).
Proof.
  revert file. induction qs as [|q qs IH]; intros file.
  - simpl. rewrite app_nil_r, Z.add_0_r. by destruct (file_queue file).
  - cbn [foldl List.filter]. rewrite IH, file_queue_process_user_question.
    destruct (is_blank (q_text q)); cbn [negb]; [done|].
    cbn [fst snd imap length]. rewrite <- app_assoc. f_equal.
    + f_equal. cbn [app]. f_equal.
      * f_equal. lia.
      * apply imap_ext. intros i x _. simpl. f_equal. lia.
    + lia.
Qed.

(** X13. Questions asked through [process_user_question], each with its
    own load and save of the file. A blank question leaves the file as it
    is. Starting with no file, or with a file that cannot be read, the file
    ends up holding exactly the non-blank questions as pending requests, in
    the order asked, the [i]-th (from 0) with id [i + 1], and a submission
    counter equal to their number; what a later [load_queue] returns has
    that queue and that counter. *)
Theorem persisted_questions (qs : list Question) (start : QueueFile)
    (t1 t2 t3 : Z) :
  let accepted := List.filter (λ q, negb (is_blank (q_text q))) qs in
  let final := foldl process_user_question start qs in
  (∀ file q, is_blank (q_text q) = true → process_user_question file q = file)
  ∧ (start = Missing ∨ start = Unreadable →
     message_queue (load_queue t1 t2 t3 final) = imap request_at accepted
     ∧ total_messages (load_queue t1 t2 t3 final) = Z.of_nat (length accepted)
     ∧ (accepted ≠ [] →
        ∃ data, final = Stored data
                ∧ d_message_queue data = Some (imap request_at accepted)
                ∧ d_total_messages data = Some (Z.of_nat (length accepted)))).
Proof.
  intros accepted final. split.
  - intros file q Hblank. unfold process_user_question. by rewrite Hblank.
  - intros Hstart.
    assert (file_queue start = ([], 0)) as Hs by (by destruct Hstart as [-> | ->]).
    pose proof (file_queue_questions qs start) as Hfq.
    fold accepted in Hfq. fold final in Hfq. rewrite Hs in Hfq. simpl in Hfq.
    assert (file_queue final = (imap request_at accepted, Z.of_nat (length accepted)))
      as Hfinal.
    { exact Hfq. }
    destruct (load_queue_file_queue t1 t2 t3 final) as [-> ->].
    rewrite Hfinal. split; [done|]. split; [done|].
    intros Hne. destruct final as [| |data] eqn:E.
    + simpl in Hfinal. injection Hfinal as Hq _.
      destruct accepted; [done | discriminate].
    + simpl in Hfinal. injection Hfinal as Hq _.
      destruct accepted; [done | discriminate].
    + exists data. split; [done|].
      assert (is_Some (d_message_queue data) ∧ is_Some (d_total_messages data))
        as [[mq Hmq] [tot Htot]].
      { clear Hfinal Hfq Hne. unfold final in E. clear final accepted.
        revert E. revert data. induction qs as [|q qs IH] using rev_ind.
        - intros data E. simpl in E. destruct Hstart; congruence.
        - intros data. rewrite foldl_app. simpl.
          unfold process_user_question at 1.
          destruct (is_blank (q_text q)).
          + apply IH.
          + intros [= <-]. simpl. split; eauto. }
      simpl in Hfinal. rewrite Hmq, Htot in Hfinal. simpl in Hfinal.
      injection Hfinal as -> ->. done.
Qed.
End PersistedSubmission.

(** ** Health, clearing and peeking *)

Section Health.
Context `{DateTimeLib} `{StrLib}.
Variable kb : AIMSKnowledgeBase.

(** X14. [get_queue_health] depends on the number of pending requests
    alone: the level is Excellent exactly for none, Good exactly for 1 to
    3, Moderate exactly for 4 to 7 and Heavy exactly for 8 or more; and the
    call leaves the state swept with the timeout of 15 seconds, as
    [get_queue_stats] does. *)
Theorem get_queue_health_levels (t_sweep t_now : Z) (qm : QueueManager) :
  let n := length (message_queue qm) in
  let result := get_queue_health t_sweep t_now qm in
  result.1 = clean_inactive_users 15 t_sweep qm
  ∧ (result.2.1 = "🟢 Excellent" ↔ n = 0%nat)
  ∧ (result.2.1 = "🟡 Good" ↔ (1 ≤ n ≤ 3)%nat)
  ∧ (result.2.1 = "🟠 Moderate" ↔ (4 ≤ n ≤ 7)%nat)
  ∧ (result.2.1 = "🔴 Heavy" ↔ (8 ≤ n)%nat)
  ∧ (n = 0%nat → result.2.2 = "No waiting requests").
Proof.
  intros n result. unfold result, get_queue_health, get_queue_stats.
  cbn [total_input fst snd]. change (message_queue (clean_inactive_users 15 t_sweep qm))
    with (message_queue qm). fold n.
  split; [done|].
  destruct (Z.of_nat n =? 0) eqn:E0.
  { apply Z.eqb_eq in E0. cbn [fst snd].
    split_and!; (split; [intros; try done; lia | intros; try done; lia]) || (intros; done). }
  apply Z.eqb_neq in E0.
  destruct (Z.of_nat n <=? 3) eqn:E3.
  { apply Z.leb_le in E3. cbn [fst snd].
    split_and!; (split; [intros; try done; lia | intros; try done; lia]) || (intros; lia). }
  apply Z.leb_gt in E3.
  destruct (Z.of_nat n <=? 7) eqn:E7.
  { apply Z.leb_le in E7. cbn [fst snd].
    split_and!; (split; [intros; try done; lia | intros; try done; lia]) || (intros; lia). }
  apply Z.leb_gt in E7. cbn [fst snd].
  split_and!; (split; [intros; try done; lia | intros; try done; lia]) || (intros; lia).
Qed.

(** X15. After [clear_all_queues] nobody has a queue position, a dispatch
    call returns [False] and a retrieval returns [None], both leaving the
    state as it is; the counters, the transcript and the activity map are
    not reset, so the next request submitted still takes the id after
    [total_messages]. *)
Theorem clear_all_queues_spec (qm : QueueManager) :
  let cleared := clear_all_queues qm in
  (∀ user_id, get_queue_position user_id cleared = 0)
  ∧ (∀ current_time now,
       process_next_message kb current_time now cleared = (cleared, false))
  ∧ (∀ user_id, get_response user_id cleared = (cleared, Returned None))
  ∧ total_messages cleared = total_messages qm
  ∧ processed_count cleared = processed_count qm
  ∧ conversation_history cleared = conversation_history qm
  ∧ active_users cleared = active_users qm
  ∧ (∀ t_msg t_active t_log message user_id,
       message_queue (add_user_message t_msg t_active t_log message user_id cleared)
       = [ {| msg_id := total_messages qm + 1;
              msg_message := message;
              msg_timestamp := isoformat t_msg;
              msg_user_id := user_id |} ]).
Proof.
  intros cleared. split_and!; try done.
  intros current_time now. by apply empty_unchanged.
Qed.

(** X16. [peek_next_message] shows the request the next successful
    dispatch answers: when [process_next_message] returns [True], the
    request peeked before the call is the one whose response is now last
    in [response_queue], and the peek after the call shows the request
    that was second in line. When the peek shows nothing, the dispatch
    returns [False]. *)
Theorem peek_predicts_dispatch (current_time : Q) (now : Z) (qm : QueueManager) :
  let result := process_next_message kb current_time now qm in
  (result.2 = true →
   ∃ msg, peek_next_message qm = Some msg
          ∧ last (response_queue result.1) = Some (response_for kb now msg)
          ∧ peek_next_message result.1 = message_queue qm !! 1%nat)
  ∧ (peek_next_message qm = None → result = (qm, false))
  ∧ peek_next_message qm = (dequeue qm).2.
Proof.
  intros result. unfold result, peek_next_message. split; [|split].
  - intros Hok.
    destruct (process_next_message_cases kb current_time now qm)
      as [Hsame | [msg [rest [_ [Hq Hdone]]]]].
    + rewrite Hsame in Hok. done.
    + rewrite Hdone, Hq. simpl. exists msg. split; [done|].
      split; [apply last_snoc | by destruct rest].
  - intros Hnone. apply empty_unchanged. by destruct (message_queue qm).
  - unfold dequeue. by destruct (message_queue qm).
Qed.
End Health.

(** ** Categories and keyword priority *)

Lemma categories_loop_spec (procs : list Procedure)
    (acc cats : list (string * string)) :
  NoDup acc.*1 →
  categories_loop procs acc = Returned cats →
  NoDup cats.*1
  ∧ ∀ c k, (c, k) ∈ cats ↔
      (c, k) ∈ acc
      ∨ ((c ∉ acc.*1) ∧
         ∃ i p, procs !! i = Some p ∧ category p = c ∧
                head (keywords p) = Some k ∧
                ∀ j q, (j < i)%nat → procs !! j = Some q → category q ≠ c).
Proof.
  revert acc. induction procs as [|p procs IH]; intros acc Hnd; simpl.
  - intros [= <-]. split; [done|]. intros c k. split; [by left|].
    intros [Hin | [_ [i [p [Hp _]]]]]; done.
  - destruct (bool_decide (category p ∈ acc.*1)) eqn:E.
    + apply bool_decide_eq_true in E. intros Hloop.
      destruct (IH acc Hnd Hloop) as [Hnd' Hspec]. split; [done|].
      intros c k. rewrite Hspec. split.
      * intros [Hin | [Hc [i [q [Hq [Hcat [Hhead Hfirst]]]]]]]; [by left|].
        right. split; [done|]. exists (S i), q. split; [done|].
        split; [done|]. split; [done|].
        intros [|j] q' Hj Hq'; simpl in Hq'.
        -- injection Hq' as <-. congruence.
        -- apply (Hfirst j q'); [lia | done].
      * intros [Hin | [Hc [i [q [Hq [Hcat [Hhead Hfirst]]]]]]]; [by left|].
        right. split; [done|]. destruct i as [|i]; simpl in Hq.
        -- injection Hq as <-. congruence.
        -- exists i, q. split; [done|]. split; [done|]. split; [done|].
           intros j q' Hj Hq'. apply (Hfirst (S j) q'); [lia | done].
    + apply bool_decide_eq_false in E.
      destruct (keywords p) as [|k0 ks] eqn:Hk; [done|]. intros Hloop.
      assert (NoDup (acc ++ [(category p, k0)]).*1) as Hnd2.
      { rewrite fmap_app. apply NoDup_app. split; [done|]. split.
        - intros x Hx Hx'. apply list_elem_of_singleton in Hx'. by subst.
        - apply NoDup_singleton. }
      destruct (IH _ Hnd2 Hloop) as [Hnd' Hspec]. split; [done|].
      intros c k. rewrite Hspec, fmap_app. split.
      * intros [Hin | [Hc [i [q [Hq [Hcat [Hhead Hfirst]]]]]]].
        -- apply elem_of_app in Hin as [Hin | Hin]; [by left|].
           apply list_elem_of_singleton in Hin. injection Hin as -> ->.
           right. split; [done|]. exists 0%nat, p. split; [done|].
           split; [done|]. split; [by rewrite Hk|]. intros j q Hj. lia.
        -- right. rewrite not_elem_of_app in Hc. destruct Hc as [Hc1 Hc2].
           split; [done|]. exists (S i), q. split; [done|].
           split; [done|]. split; [done|].
           intros [|j] q' Hj Hq'; simpl in Hq'.
           ++ injection Hq' as <-. intros Heq. apply Hc2. simpl.
              rewrite Heq. apply list_elem_of_here.
           ++ apply (Hfirst j q'); [lia | done].
      * intros [Hin | [Hc [i [q [Hq [Hcat [Hhead Hfirst]]]]]]].
        -- left. apply elem_of_app. by left.
        -- destruct i as [|i]; simpl in Hq.
           ++ injection Hq as <-. left. apply elem_of_app. right.
              rewrite Hk in Hhead. injection Hhead as <-. rewrite Hcat.
              apply list_elem_of_here.
           ++ right. split.
              ** apply not_elem_of_app. split; [done|]. simpl.
                 intros Hin. apply list_elem_of_singleton in Hin.
                 apply (Hfirst 0%nat p); [lia | done | done].
              ** exists i, q. split; [done|]. split; [done|]. split; [done|].
                 intros j q' Hj Hq'. apply (Hfirst (S j) q'); [lia | done].
Qed.

(** X17. When [get_all_categories] returns, each category occurs once
    among the keys, and a category is mapped to a keyword exactly when that
    keyword is the first keyword of the first procedure, in list order,
    that has the category: later procedures of a category already seen do
    not change its entry. *)
Theorem get_all_categories_spec (kb : AIMSKnowledgeBase)
    (cats : list (string * string)) :
  get_all_categories kb = Returned cats →
  NoDup cats.*1
  ∧ ∀ c k, (c, k) ∈ cats ↔
      ∃ i p, procedures kb !! i = Some p ∧ category p = c ∧
             head (keywords p) = Some k ∧
             ∀ j q, (j < i)%nat → procedures kb !! j = Some q → category q ≠ c.
Proof.
  intros Hret. unfold get_all_categories in Hret.
  destruct (categories_loop_spec (procedures kb) [] cats) as [Hnd Hspec];
    [constructor | done |].
  split; [done|]. intros c k. rewrite Hspec. split.
  - intros [Hin | [_ Hex]]; [by apply not_elem_of_nil in Hin | done].
  - intros Hex. right. split; [apply not_elem_of_nil | done].
Qed.

(** X18. [get_all_categories] raises exactly when some procedure that is
    the first of its category has no keyword. *)
Theorem get_all_categories_raises (kb : AIMSKnowledgeBase) :
  get_all_categories kb = Raised ↔
  ∃ i p, procedures kb !! i = Some p ∧ keywords p = [] ∧
         ∀ j q, (j < i)%nat → procedures kb !! j = Some q →
                category q ≠ category p.
Proof.
  unfold get_all_categories.
  assert (∀ procs acc,
            categories_loop procs acc = Raised ↔
            ∃ i p, procs !! i = Some p ∧ keywords p = [] ∧
                   (category p ∉ acc.*1) ∧
                   ∀ j q, (j < i)%nat → procs !! j = Some q →
                          category q ≠ category p) as Hgen.
  { induction procs as [|p procs IH]; intros acc; simpl.
    - split; [done | intros [i [p [Hp _]]]; done].
    - destruct (bool_decide (category p ∈ acc.*1)) eqn:E.
      + apply bool_decide_eq_true in E. rewrite IH. split.
        * intros [i [q [Hq [Hk [Hc Hfirst]]]]]. exists (S i), q.
          split; [done|]. split; [done|]. split; [done|].
          intros [|j] q' Hj Hq'; simpl in Hq'.
          -- injection Hq' as <-. congruence.
          -- apply (Hfirst j q'); [lia | done].
        * intros [[|i] [q [Hq [Hk [Hc Hfirst]]]]]; simpl in Hq.
          -- injection Hq as <-. done.
          -- exists i, q. split; [done|]. split; [done|]. split; [done|].
             intros j q' Hj Hq'. apply (Hfirst (S j) q'); [lia | done].
      + apply bool_decide_eq_false in E.
        destruct (keywords p) as [|k0 ks] eqn:Hk.
        * split; [|done]. intros _. exists 0%nat, p.
          split; [done|]. split; [done|]. split; [done|]. intros j q Hj. lia.
        * rewrite IH, fmap_app. split.
          -- intros [i [q [Hq [Hkq [Hc Hfirst]]]]]. exists (S i), q.
             apply not_elem_of_app in Hc as [Hc1 Hc2].
             split; [done|]. split; [done|]. split; [done|].
             intros [|j] q' Hj Hq'; simpl in Hq'.
             ++ injection Hq' as <-. intros Heq. apply Hc2. simpl.
                rewrite Heq. apply list_elem_of_here.
             ++ apply (Hfirst j q'); [lia | done].
          -- intros [[|i] [q [Hq [Hkq [Hc Hfirst]]]]]; simpl in Hq.
             ++ injection Hq as <-. congruence.
             ++ exists i, q. split; [done|]. split; [done|]. split.
                ** apply not_elem_of_app. split; [done|]. simpl.
                   intros Hin. apply list_elem_of_singleton in Hin.
                   apply (Hfirst 0%nat p); [lia | done | done].
                ** intros j q' Hj Hq'. apply (Hfirst (S j) q'); [lia | done]. }
  rewrite Hgen. split.
  - intros [i [p [Hp [Hk [_ Hfirst]]]]]. by exists i, p.
  - intros [i [p [Hp [Hk Hfirst]]]]. exists i, p.
    split; [done|]. split; [done|]. split; [apply not_elem_of_nil | done].
Qed.

Section KeywordPriority.
Context `{StrLib}.

(** X19. In the procedure table of the source the keyword
    ["enrollment form"] of the Registration Form procedure can never
    select it: every message whose lower-cased text contains it also
    contains ["enroll"], a keyword of the Enrollment procedure, which
    comes first. *)
Theorem enrollment_form_shadowed (body : string → string) (help user_message : string) :
  is_substring "enrollment form" (str_lower user_message) →
  category <$> search_procedure (AIMS body help) user_message = Some "Enrollment".
Proof.
  intros [pre [post Hs]].
  assert (str_in "enroll" (str_lower user_message) = true) as Hin.
  { apply str_in_spec. exists pre, ("ment form" +:+ post). rewrite Hs.
    f_equal. }
  unfold search_procedure. simpl. unfold any_keyword_in at 1. simpl.
  by rewrite Hin.
Qed.

(** The first keyword of the procedure at position [n] of the table is
    one of the table's keywords. *)
Ltac first_keyword_of Hlower n :=
  eapply Hlower;
  [ eapply (list_elem_of_lookup_2 _ n); reflexivity
  | simpl; apply list_elem_of_here ].

(** X20. The quick-question shortcuts resolve to their own category: for
    the table of the source, when lower-casing leaves its (lower-case)
    keywords as they are, [get_all_categories] returns one keyword for each
    of the eight categories, in table order, and submitting that keyword is
    answered by the procedure of that category. *)
Theorem quick_questions_resolve (body : string → string) (help : string) :
  (∀ p keyword, p ∈ AIMS_procedures body → keyword ∈ keywords p →
                str_lower keyword = keyword) →
  let cats :=
    [ ("Enrollment", "enroll"); ("Fee Payment", "pay tuition");
      ("Grades", "grades"); ("Other Payments", "other payments");
      ("Schedule", "schedule"); ("Registration Form", "registration form");
      ("Account History", "statement of account"); ("Password", "password") ] in
  get_all_categories (AIMS body help) = Returned cats
  ∧ cats.*1 = category <$> AIMS_procedures body
  ∧ ∀ c keyword, (c, keyword) ∈ cats →
      category <$> search_procedure (AIMS body help) keyword = Some c.
Proof.
  intros Hlower cats. split; [reflexivity|]. split; [reflexivity|].
  intros c keyword Hin.
  assert (str_lower keyword = keyword) as Hk.
  { unfold cats in Hin.
    repeat (apply elem_of_cons in Hin as [[= -> ->] | Hin];
      [ first [ solve [first_keyword_of Hlower 0%nat]
              | solve [first_keyword_of Hlower 1%nat]
              | solve [first_keyword_of Hlower 2%nat]
              | solve [first_keyword_of Hlower 3%nat]
              | solve [first_keyword_of Hlower 4%nat]
              | solve [first_keyword_of Hlower 5%nat]
              | solve [first_keyword_of Hlower 6%nat]
              | solve [first_keyword_of Hlower 7%nat] ] |]).
    by apply not_elem_of_nil in Hin. }
  unfold search_procedure. rewrite Hk.
  unfold cats in Hin.
  repeat (apply elem_of_cons in Hin as [[= -> ->] | Hin]; [reflexivity|]).
  by apply not_elem_of_nil in Hin.
Qed.
End KeywordPriority.

(** ** The further properties at work *)

(** The second of two submitters moves from place 2 to place 1. *)
Lemma dispatch_advances_positions_witness :
  let qm := @run micros_clock ascii_strings demo_kb
              (@new_QueueManager micros_clock 0)
              [ Submit 1 2 3 "How do I enroll?" "A"; Submit 4 5 6 "grades" "B" ] in
  get_queue_position "B" qm = 2
  ∧ get_queue_position "B"
      (@process_next_message micros_clock ascii_strings demo_kb 1000 7 qm).1 = 1.
Proof.
  intros qm. split; [reflexivity|].
  rewrite (@dispatch_advances_positions micros_clock ascii_strings demo_kb
             1000 7 qm "B"); [reflexivity | reflexivity | vm_compute; discriminate].
Defined.

(** A first request on the fresh state, dispatched and retrieved. *)
Lemma submit_dispatch_retrieve_witness :
  let qm := @new_QueueManager micros_clock 0 in
  let q1 := @add_user_message micros_clock 1 2 3 "grades" "A" qm in
  let dispatched := @process_next_message micros_clock ascii_strings demo_kb 1000 20 q1 in
  @fromisoformat micros_clock (@isoformat micros_clock 20) = Some 20
  ∧ dispatched.2 = true
  ∧ resp_response <$>
      match (@get_response micros_clock "A" dispatched.1).2 with
      | Returned r => r
      | Raised => None
      end = Some "How to: Grades".
Proof.
  intros qm q1 dispatched. split; [reflexivity|].
  destruct (@submit_dispatch_retrieve micros_clock ascii_strings demo_kb
              1 2 3 20 1000 "grades" "A" qm) as [Hok [Hret _]];
    [reflexivity | reflexivity | | reflexivity |].
  - intros r Hr. by apply not_elem_of_nil in Hr.
  - split; [exact Hok|]. fold q1 dispatched in Hret. rewrite Hret. reflexivity.
Defined.

(** A full transcript, one more exchange, saved and reloaded: 100 entries,
    the new exchange last. *)
Lemma retrieve_then_persist_witness :
  let reloaded :=
    @load_queue micros_clock 0 0 0
      (save_queue (@get_response micros_clock "A" full_transcript).1) in
  length (conversation_history full_transcript) = 100%nat
  ∧ (length (conversation_history reloaded) ≤ 100)%nat
  ∧ ex_user <$> last (conversation_history reloaded) = Some "grades".
Proof.
  intros reloaded. split; [reflexivity|].
  destruct (@retrieve_then_persist micros_clock 0 0 0 "A" full_transcript
              [] [] _ 20 eq_refl) as [_ [_ [Hlast [Hlen _]]]];
    [| reflexivity | reflexivity |].
  - intros r Hr. by apply not_elem_of_nil in Hr.
  - fold reloaded in Hlast, Hlen. split; [exact Hlen|]. by rewrite Hlast.
Defined.

(** A heartbeat at second 1 against sweeps at seconds 2 and 17. *)
Lemma heartbeat_then_sweep_witness :
  let qm := @update_user_activity micros_clock 1000000 "A"
              (@new_QueueManager micros_clock 0) in
  @fromisoformat micros_clock (@isoformat micros_clock 1000000) = Some 1000000
  ∧ active_users (@clean_inactive_users micros_clock 15 2000000 qm) !! "A"
    = Some "1000000"
  ∧ active_users (@clean_inactive_users micros_clock 15 17000000 qm) !! "A"
    = None.
Proof.
  intros qm.
  assert (@fromisoformat micros_clock (@isoformat micros_clock 1000000)
          = Some 1000000) as Hstamp by (vm_compute; reflexivity).
  split; [exact Hstamp|]. split.
  - apply (@heartbeat_then_sweep micros_clock 1000000 2000000 15 "A"
             (@new_QueueManager micros_clock 0) Hstamp).
    vm_compute. discriminate.
  - apply (@heartbeat_then_sweep micros_clock 1000000 17000000 15 "A"
             (@new_QueueManager micros_clock 0) Hstamp).
    vm_compute. reflexivity.
Defined.

(** The sweep of a load at second 20, then the sweep of a statistics query
    at second 30. *)
Lemma sweeps_compose_witness :
  (15 <= 30)%Q ∧ 20000000 ≤ 30000000
  ∧ @clean_inactive_users micros_clock 15 30000000
      (@clean_inactive_users micros_clock 30 20000000 three_users)
    = @clean_inactive_users micros_clock 15 30000000 three_users.
Proof.
  assert (15 <= 30)%Q as Hq by (vm_compute; discriminate).
  assert (20000000 ≤ 30000000) as Hz by lia.
  split; [exact Hq|]. split; [exact Hz|].
  exact (@sweeps_compose micros_clock 30 15 20000000 30000000 three_users Hq Hz).
Defined.

(** One and a half seconds of uptime are reported as one second. *)
Lemma uptime_seconds_bounds_witness :
  let stats := (@get_queue_stats micros_clock 1500000 1500000 one_processed).2 in
  @fromisoformat micros_clock (start_time one_processed) = Some 0
  ∧ @offset_aware micros_clock (start_time one_processed) = false
  ∧ uptime_seconds stats = 1
  ∧ 1000000 * uptime_seconds stats ≤ 1500000 - 0
  ∧ 1500000 - 0 < 1000000 * (uptime_seconds stats + 1).
Proof.
  intros stats. split; [reflexivity|]. split; [reflexivity|].
  split; [reflexivity|].
  apply (@uptime_seconds_bounds micros_clock 1500000 1500000 0 one_processed
           eq_refl eq_refl); [lia | reflexivity].
Defined.

(** The categories of the table of the source. *)
Lemma get_all_categories_spec_witness :
  get_all_categories demo_kb
  = Returned
      [ ("Enrollment", "enroll"); ("Fee Payment", "pay tuition");
        ("Grades", "grades"); ("Other Payments", "other payments");
        ("Schedule", "schedule"); ("Registration Form", "registration form");
        ("Account History", "statement of account"); ("Password", "password") ]
  ∧ NoDup
      ([ ("Enrollment", "enroll"); ("Fee Payment", "pay tuition");
         ("Grades", "grades"); ("Other Payments", "other payments");
         ("Schedule", "schedule"); ("Registration Form", "registration form");
         ("Account History", "statement of account");
         ("Password", "password") ] : list (string * string)).*1.
Proof.
  split; [reflexivity|].
  apply (get_all_categories_spec demo_kb _ eq_refl).
Defined.

(** A question about the enrollment form is answered with the enrollment
    procedure. *)
Lemma enrollment_form_shadowed_witness :
  is_substring "enrollment form" (string_lower "Where is my Enrollment Form?")
  ∧ category <$> @search_procedure ascii_strings demo_kb "Where is my Enrollment Form?"
    = Some "Enrollment".
Proof.
  assert (is_substring "enrollment form"
            (string_lower "Where is my Enrollment Form?")) as Hsub
    by (exists "where is my ", "?"; reflexivity).
  split; [exact Hsub|].
  exact (@enrollment_form_shadowed ascii_strings _ _ _ Hsub).
Defined.

(** ASCII lower-casing leaves the keywords of the table as they are, and
    the shortcut for grades is answered by the grades procedure. *)
Lemma quick_questions_resolve_witness :
  (∀ p keyword,
     p ∈ AIMS_procedures (λ category, "How to: " +:+ category) →
     keyword ∈ keywords p → string_lower keyword = keyword)
  ∧ category <$> @search_procedure ascii_strings demo_kb "grades" = Some "Grades".
Proof.
  assert (∀ p keyword,
            p ∈ AIMS_procedures (λ category, "How to: " +:+ category) →
            keyword ∈ keywords p → string_lower keyword = keyword) as Hlower.
  { intros p keyword Hp Hk. unfold AIMS_procedures in Hp.
    repeat (apply elem_of_cons in Hp as [-> | Hp];
      [ simpl in Hk;
        repeat (apply elem_of_cons in Hk as [-> | Hk]; [reflexivity|]);
        by apply not_elem_of_nil in Hk |]).
    by apply not_elem_of_nil in Hp. }
  split; [exact Hlower|].
  destruct (@quick_questions_resolve ascii_strings
              (λ category, "How to: " +:+ category) "Welcome to AIMSsist!" Hlower)
    as [_ [_ Hall]].
  apply Hall. do 2 apply list_elem_of_further. apply list_elem_of_here.
Defined.

(** Two dispatches four seconds apart, with a throttled call in between. *)
Lemma dispatched_at_spaced_witness :
  @dispatched_at micros_clock ascii_strings demo_kb
    (@new_QueueManager micros_clock 0) spaced_calls = [1000%Q; 1004%Q]
  ∧ StronglySorted spaced
      (@dispatched_at micros_clock ascii_strings demo_kb
         (@new_QueueManager micros_clock 0) spaced_calls).
Proof.
  split; [reflexivity|].
  apply (@dispatched_at_spaced micros_clock ascii_strings demo_kb spaced_calls
           (@new_QueueManager micros_clock 0)).
  - intros current_time now Hin. unfold spaced_calls in Hin.
    repeat (apply elem_of_cons in Hin as [Heq | Hin];
      [ first [ discriminate Heq
              | injection Heq as -> ->; vm_compute; discriminate ] |]).
    by apply not_elem_of_nil in Hin.
  - intros last Hlast. discriminate Hlast.
Defined.

(** A waiting response stamped ["noon"]: the retrieval raises and the
    response is gone. *)
Lemma get_response_bad_timestamp_witness :
  @fromisoformat micros_clock "noon" = None
  ∧ @get_response micros_clock "A" bad_stamp
    = (set_response_queue [] bad_stamp, Raised).
Proof.
  split; [reflexivity|].
  apply (@get_response_bad_timestamp micros_clock "A" bad_stamp [] []
           {| resp_id := 1; resp_response := "How to: Grades";
              resp_original_message := "grades"; resp_user_id := "A";
              resp_timestamp := "noon" |});
    [reflexivity | | reflexivity | reflexivity].
  intros r Hr. by apply not_elem_of_nil in Hr.
Defined.

(** A blank question and a real one, asked with no file present. *)
Example persisted_questions_example :
  let qs :=
    [ {| q_load1 := 1; q_load2 := 1; q_load3 := 1; q_t_msg := 2; q_t_active := 2;
         q_t_log := 2; q_text := "   "; q_user_id := "A" |};
      {| q_load1 := 3; q_load2 := 3; q_load3 := 3; q_t_msg := 4; q_t_active := 4;
         q_t_log := 4; q_text := " How do I enroll? "; q_user_id := "B" |} ] in
  msg_id <$> (file_queue
                (foldl (@process_user_question micros_clock ascii_strip) Missing qs)).1
  = [1]
  ∧ msg_user_id <$>
      (file_queue
         (foldl (@process_user_question micros_clock ascii_strip) Missing qs)).1
    = ["B"].
Proof. split; reflexivity. Qed.
